(** * NTRTsim learning scripts: LearningJobMaster and ControllerJobMaster

    A shallow embedding of [scripts/learning/src/jobs/LearningJobMaster.py]
    and [scripts/learning/src/jobs/ControllerJobMaster.py], and the
    properties of the generation pipeline proved about it.

    Python dictionaries with dynamic keys (the configuration's component
    entries, a member's [components], the component populations) are finite
    maps; dictionaries with a fixed set of keys are records whose optional
    keys are [option] fields; Python integers are [Z]; exceptions are an
    error result; the random module, the artifact files, the console and
    the scheduler are fields of an explicit world state. *)

From Stdlib Require Import ZArith String Ascii List Lia DecimalString.
From Stdlib Require DecimalPos DecimalN DecimalZ.
From stdpp Require Import base gmap strings list fin_maps pretty.

Open Scope Z_scope.

(** ** Python values *)

(** Numbers held by parameter vectors. A float is kept as the numeral
    that [str] prints for it, which is the precision the weight files
    retain: sign, whole part and fraction digits (0.1, -2.0); the same
    with an exponent, with or without fraction digits, where [str] uses
    one (1e-05, 1.5e+16); or inf, -inf and nan. The type also holds
    numerals of these shapes that [str] prints for no float (more digits
    than [str] gives, say); what is proved for every value holds of them
    as well. *)
Inductive pynum :=
  | PyInt (z : Z)
  | PyFloat (negative : bool) (whole : N) (fraction : Decimal.uint)
  | PyFloatExp (negative : bool) (whole : N) (fraction : option Decimal.uint)
               (exponent_negative : bool) (exponent : Decimal.uint)
  | PyInf (negative : bool)
  | PyNan.

(** A parameter slot: [None] is Python's [None] placeholder. *)
Definition pval := option pynum.

Definition signed (negative : bool) (whole : N) : Decimal.signed_int :=
  if negative then Decimal.Neg (N.to_uint whole) else Decimal.Pos (N.to_uint whole).

Definition str_num (n : pynum) : string :=
  match n with
  | PyInt z => NilZero.string_of_int (Z.to_int z)
  | PyFloat negative whole fraction =>
      NilZero.string_of_int (signed negative whole) +:+ "." +:+ NilEmpty.string_of_uint fraction
  | PyFloatExp negative whole fraction exponent_negative exponent =>
      NilZero.string_of_int (signed negative whole)
      +:+ match fraction with
          | Some digits => "." +:+ NilEmpty.string_of_uint digits
          | None => ""
          end
      +:+ "e" +:+ (if exponent_negative then "-" else "+")%string
      +:+ NilEmpty.string_of_uint exponent
  | PyInf negative => if negative then "-inf" else "inf"
  | PyNan => "nan"
  end.

(** Python's [str] on a parameter slot. *)
Definition str (x : pval) : string :=
  match x with
  | None => "None"
  | Some n => str_num n
  end.

(** Exceptions raised by the modelled code. *)
Inductive exn :=
  | IndexError
  | KeyError (key : string)
  | TypeError
  | IOError
  | ValueError
  | MissingComponentError (component : string).

Inductive result (A : Type) :=
  | Ok (a : A)
  | Raise (e : exn).
Arguments Ok {A} a.
Arguments Raise {A} e.

(** ** Data model *)

(** [component['params']] of a neural component. *)
Record NeuralParams := {
  neuralParams : list pval;
  numActions : Z;
  numStates : Z;
  numHidden : Z;
  neuralFilename : option string
}.

(** [component['params']]: a list of lists, or the neural dictionary. *)
Inductive Params :=
  | ParamList (rows : list (list pval))
  | ParamNet (net : NeuralParams).

(** A component candidate dictionary. Keys that are added along the way
    ([populationID] by the learning algorithm, [paramID] and [scores] by
    the post-processing) are optional. *)
Record Candidate := {
  params : Params;
  generationID : Z;
  populationID : option Z;
  paramID : option Z;
  scores : option (list pynum)
}.

(** Values of a member's [components] dictionary: the two identifiers and
    one candidate per component name. *)
Inductive mvalue :=
  | MInt (z : Z)
  | MComponent (c : Candidate).

(** Modelled from the spec: the [Member] class of [helpersNew], whose
    source is not part of the two files. A member is its [components]
    dictionary; [Member(memberID, generationID)] starts it with the two
    identifiers (they are read back from it by [writeMemberToFile]) and
    [Member(components=d)] wraps the dictionary [d]. *)
Record Member := { components : gmap string mvalue }.

Definition Member_new (memberID genID : Z) : Member :=
  {| components := <["memberID" := MInt memberID]> (<["generationID" := MInt genID]> ∅) |}.

Definition Member_of (d : gmap string mvalue) : Member := {| components := d |}.

(** Modelled from the spec: the [Generation] class of [helpersNew], whose
    source is not part of the two files: an identifier and the members in
    creation order, filled by the append-only [addMember]. *)
Record Generation := { ID : Z; members : list Member }.

Definition Generation_new (genID : Z) : Generation := {| ID := genID; members := [] |}.

Definition addMember (g : Generation) (m : Member) : Generation :=
  {| ID := ID g; members := members g ++ [m] |}.

Definition getMembers (g : Generation) : list Member := members g.

(** ** Configuration *)

Record PathInfo := {
  trialPath : string;
  fileName : string;
  executable : string;
  seedDirectory : string
}.

(** The YAML value under [terrains]: a string, a list of terrain
    descriptors, or a scalar that cannot be iterated. *)
Inductive yaml_terrains :=
  | TString (s : string)
  | TList (l : list (list (list Z)))
  | TScalar (z : Z).

Record TrialProperties := {
  generationCount : Z;
  generationSize : Z;
  trialLength : pynum;
  terrains : yaml_terrains
}.

Record NeuralNetwork := {
  numberOfStates : Z;
  numberOfInstances : Z;
  numberOfOutputs : Z;
  numberOfHidden : Z
}.

(** A component entry of the configuration. The algorithm-specific keys
    are read by the learning algorithm only and are left out. Every entry
    carries the NeuralNetwork key here; for an entry without it the first
    line of [generateComponentPopulation] raises KeyError, a path this
    record leaves out: what is proved below of the population generator
    is about entries that carry the key. *)
Record ComponentSpec := {
  PopulationSize : Z;
  neuralNetwork : NeuralNetwork
}.

(** The parsed configuration: the two reserved sections and every other
    top-level key. *)
Record Config := {
  pathInfo : PathInfo;
  trialProps : TrialProperties;
  entries : gmap string ComponentSpec
}.

(** A job description, the [args] dictionary given to [EvolutionJob]. *)
Record EvolutionJob := {
  job_filename : string;
  job_resourcePrefix : string;
  job_path : string;
  job_executable : string;
  job_length : pynum;
  job_terrain : list (list Z)
}.

(** ** The world: random source, files, console, scheduler *)

Inductive FileContent :=
  | MemberJson (d : gmap string mvalue)
  | NNWText (text : string).

(** The seed directory as the operating system shows it. It is read once,
    before any artifact is written. *)
Record Disk := {
  isdir : string -> bool;
  listdir : string -> list string;
  json_load : string -> result (gmap string mvalue)
}.

Record World := {
  rng_draws : nat -> nat;
  rng_pos : nat;
  disk : Disk;
  files : gmap string FileContent;
  console : list string;
  submitted : list (list EvolutionJob * Z)
}.

Definition set_files (f : gmap string FileContent -> gmap string FileContent) (w : World) : World :=
  {| rng_draws := rng_draws w; rng_pos := rng_pos w; disk := disk w;
     files := f (files w); console := console w; submitted := submitted w |}.

Definition set_console (f : list string -> list string) (w : World) : World :=
  {| rng_draws := rng_draws w; rng_pos := rng_pos w; disk := disk w;
     files := files w; console := f (console w); submitted := submitted w |}.

Definition set_submitted (f : list (list EvolutionJob * Z) -> list (list EvolutionJob * Z))
    (w : World) : World :=
  {| rng_draws := rng_draws w; rng_pos := rng_pos w; disk := disk w;
     files := files w; console := console w; submitted := f (submitted w) |}.

Definition set_rng_pos (pos : nat) (w : World) : World :=
  {| rng_draws := rng_draws w; rng_pos := pos; disk := disk w;
     files := files w; console := console w; submitted := submitted w |}.

Definition advance_rng (w : World) : World := set_rng_pos (S (rng_pos w)) w.

(** State and exception monad over the world. *)
Definition M (A : Type) : Type := World -> result (A * World).

Definition ret {A} (a : A) : M A := fun w => Ok (a, w).

Definition bind {A B} (m : M A) (k : A -> M B) : M B :=
  fun w => match m w with
           | Ok (a, w') => k a w'
           | Raise e => Raise e
           end.

Definition modify (f : World -> World) : M unit := fun w => Ok (tt, f w).

Notation "x <- m ;; k" := (bind m (fun x => k))
  (at level 100, m at next level, right associativity).
Notation "m ;;; k" := (bind m (fun _ => k))
  (at level 100, right associativity).

(** A [for] loop threading an accumulator. *)
Fixpoint forFold {A B} (body : B -> A -> M B) (acc : B) (l : list A) : M B :=
  match l with
  | [] => ret acc
  | x :: rest => acc' <- body acc x ;; forFold body acc' rest
  end.

(** A [for] loop rebuilding each element (in-place update of the items). *)
Fixpoint forMap {A B} (body : A -> M B) (l : list A) : M (list B) :=
  match l with
  | [] => ret []
  | x :: rest => y <- body x ;; ys <- forMap body rest ;; ret (y :: ys)
  end.

(** [range(n)]: empty when [n] is not positive. *)
Definition range (n : Z) : list Z := Z.of_nat <$> seq 0 (Z.to_nat n).

(** [random.choice(seq)]: [seq[int(random() * len(seq))]]; the raw draw
    is reduced to an index below the length, and the empty sequence has
    no valid index. *)
Definition random_choice {A} (l : list A) : M A :=
  fun w =>
    match l !! (rng_draws w (rng_pos w) mod length l)%nat with
    | Some x => Ok (x, advance_rng w)
    | None => Raise IndexError
    end.

Definition lift {A} (r : result A) : M A :=
  fun w => match r with Ok a => Ok (a, w) | Raise e => Raise e end.

(** [d[key]] on a dictionary. *)
Definition getitem {V} (d : gmap string V) (key : string) : result V :=
  match d !! key with
  | Some v => Ok v
  | None => Raise (KeyError key)
  end.

(** [str] on a Python integer. *)
Definition str_int (z : Z) : string := NilZero.string_of_int (Z.to_int z).

(** ** Collaborators outside the two files *)

(** The learning algorithm ([algorithms.dispatchLearning]), the truth value
    Python gives a [Generation] object, [os.path.abspath], and [str] on a
    candidate dictionary. The algorithm is a function of its arguments and
    of the random source, from which it draws: it is given the draws and
    the position, and returns the population with the new position. *)
Class Externals := {
  dispatchLearning :
    string -> ComponentSpec -> Candidate -> Generation ->
    (nat -> nat) -> nat -> result (list Candidate * nat);
  Generation_truth : Generation -> bool;
  abspath : string -> string;
  str_dict : Candidate -> string
}.

(** ** LearningJobMaster *)

Module LearningJobMaster.

Definition RESOURCE_DIRECTORY_NAME : string := "../../../resources/src/".
Definition GENERATIONS_DIRECTORY_NAME : string := "Generations/".
Definition MEMBERS_DIRECTORY_NAME : string := "Members/".
Definition TRIALS_DIRECTORY_NAME : string := "Trials/".
Definition GENERAL_DIRECTORY_NAME : string := "OutputMembers/".

Definition PROTECTED_TERMS : list string :=
  [ "PathInfo"; "TrialProperties"; "trialPath"; "fileName"; "executable";
    "seedDirectory"; "learningType"; "triallength"; "generationCount";
    "generationSize"; "scoreMethod"; "fitnessFunction"; "terrains";
    "Algorithms"; "PopulationSize"; "Ranges" ].

(** The attributes of the job master object. [self_terrains] is the
    attribute [self.terrains], absent unless [_setup] assigns it. *)
Record JobMaster := {
  config : Config;
  trialProperties : TrialProperties;
  trialDirectory : string;
  self_terrains : option (list (list (list Z)));
  numProcesses : Z
}.

(** The same object with the attribute [self.terrains] set to [t]. *)
Definition with_terrains (t : option (list (list (list Z)))) (self : JobMaster) : JobMaster :=
  {| config := config self; trialProperties := trialProperties self;
     trialDirectory := trialDirectory self; self_terrains := t;
     numProcesses := numProcesses self |}.

(** [len] of the configured [terrains] value. *)
Definition raw_length (t : yaml_terrains) : result nat :=
  match t with
  | TString s => Ok (String.length s)
  | TList l => Ok (length l)
  | TScalar _ => Raise TypeError
  end.

Definition yaml_eq_string (t : yaml_terrains) (s : string) : bool :=
  match t with
  | TString s' => bool_decide (s' = s)
  | _ => false
  end.

Section WithExternals.
Context `{E : Externals}.

(** [_setup], from the parsed configuration on: the attributes it
    assigns. Directory creation and logging set-up are left out. *)
Definition _setup (cfg : Config) (nproc : Z) : JobMaster :=
  {| config := cfg;
     trialProperties := trialProps cfg;
     trialDirectory := abspath (RESOURCE_DIRECTORY_NAME +:+ trialPath (pathInfo cfg));
     self_terrains :=
       if yaml_eq_string (terrains (trialProps cfg)) "flat"
       then Some [[[0; 0; 0; 0]]] else None;
     numProcesses := nproc |}.

Definition getComponents (self : JobMaster) : gmap string ComponentSpec :=
  filter (fun kv => kv.1 ∉ PROTECTED_TERMS) (entries (config self)).

Definition str_mvalue (v : mvalue) : string :=
  match v with
  | MInt z => str_int z
  | MComponent c => str_dict c
  end.

Definition writeMemberToFile (self : JobMaster) (member : Member) : M string :=
  let components := components member in
  g <- lift (getitem components "generationID") ;;
  m <- lift (getitem components "memberID") ;;
  let basename := fileName (pathInfo (config self)) +:+ "_" +:+ str_mvalue g
                  +:+ "_" +:+ str_mvalue m +:+ ".json" in
  let filePath := trialDirectory self +:+ "/" +:+ basename in
  modify (set_files (insert filePath (MemberJson components))) ;;;
  ret basename.

(** The inner loop of [createNewGeneration]: one uniform choice per
    component population, stored under the component's name. *)
Definition chooseComponents (componentPopulations : gmap string (list Candidate))
    (newMember : Member) : M Member :=
  forFold (fun newMember kv =>
           randomPopulation <- random_choice kv.2 ;;
           ret {| components := <[kv.1 := MComponent randomPopulation]> (components newMember) |})
        newMember (map_to_list componentPopulations).

Definition createNewGeneration (self : JobMaster)
    (componentPopulations : gmap string (list Candidate)) (genID : Z) : M Generation :=
  forFold (fun newGeneration id =>
           newMember <- chooseComponents componentPopulations (Member_new id genID) ;;
           ret (addMember newGeneration newMember))
        (Generation_new genID)
        (range (generationSize (trialProps (config self)))).

Definition seed_warning : string :=
  "Trying to import from a seed directory that is not a seed directory. Check the seedDirectory element in PathInfo.".

Definition importSeedGeneration (self : JobMaster) : M Generation :=
  let seedDirectory := seedDirectory (pathInfo (config self)) in
  let previousGeneration := Generation_new (-1) in
  fun w =>
    if isdir (disk w) seedDirectory then
      forFold (fun previousGeneration file =>
               let absFilePath := abspath seedDirectory +:+ "/" +:+ file in
               seedInput <- (fun w' => lift (json_load (disk w') absFilePath) w') ;;
               let newMember := Member_of seedInput in
               ret (addMember previousGeneration newMember))
            previousGeneration (listdir (disk w) seedDirectory) w
    else
      (modify (set_console (fun out => out ++ [seed_warning])) ;;;
       ret previousGeneration) w.

(** [getPreviousComponentGeneration], called with a [Generation] object
    (the default [None] has no [getMembers]): the component of every
    member, in order; a member without the key raises [KeyError]. *)
Definition getPreviousComponentGeneration (component : string)
    (previousGeneration : Generation) : result (list mvalue) :=
  let previousComponentGeneration := [] in
  if (0 <? length (getMembers previousGeneration))%nat then
    fold_left (fun acc member =>
                 match acc with
                 | Ok previousComponentGeneration =>
                     match getitem (components member) component with
                     | Ok previousComponent =>
                         Ok (previousComponentGeneration ++ [previousComponent])
                     | Raise e => Raise e
                     end
                 | Raise e => Raise e
                 end)
              (getMembers previousGeneration) (Ok previousComponentGeneration)
  else Ok previousComponentGeneration.

(** The truth value of what is passed as a previous generation: [None]
    is false, a [Generation] object is what its class says. *)
Definition truth (previousGeneration : option Generation) : bool :=
  match previousGeneration with
  | None => false
  | Some g => Generation_truth g
  end.

Definition getNewGenerationID (previousGeneration : option Generation) : Z :=
  match previousGeneration with
  | Some g => if Generation_truth g then ID g + 1 else -1
  | None => -1
  end.

(** What iterating the configured [terrains] yields: the characters of a
    string, the elements of a list; a scalar is not iterable. *)
Inductive terrain_item :=
  | ItemChar (c : ascii)
  | ItemTerrain (t : list (list Z)).

Definition py_iter (t : yaml_terrains) : result (list terrain_item) :=
  match t with
  | TString s => Ok (ItemChar <$> list_ascii_of_string s)
  | TList l => Ok (ItemTerrain <$> l)
  | TScalar _ => Raise TypeError
  end.

(** The loop over the terrains for one member: every iteration rebinds
    [terrain] to the flat descriptor and appends one job. *)
Definition appendTrialJobs (self : JobMaster) (fileName : string)
    (items : list terrain_item) (jobList : list EvolutionJob) : list EvolutionJob :=
  fold_left (fun jobList (terrain : terrain_item) =>
               let terrain := [[0; 0; 0; 0]] in
               jobList ++ [ {| job_filename := fileName;
                               job_resourcePrefix := RESOURCE_DIRECTORY_NAME;
                               job_path := trialPath (pathInfo (config self));
                               job_executable := executable (pathInfo (config self));
                               job_length := trialLength (trialProperties self);
                               job_terrain := terrain |} ])
            items jobList.

(** The loop over the members of the active generation. *)
Definition dispatchMembers (self : JobMaster) (activeGeneration : Generation)
    (jobList : list EvolutionJob) : M (list EvolutionJob) :=
  forFold (fun jobList member =>
           fileName <- writeMemberToFile self member ;;
           items <- lift (py_iter (terrains (trialProperties self))) ;;
           ret (appendTrialJobs self fileName items jobList))
        jobList (getMembers activeGeneration).

(** The loop over the generations. [jobList] is created once, before the
    loop, and the two files only ever append to it; the list object
    itself is handed to the scheduler at the end of every iteration.
    [ConcurrentScheduler] is not part of the two files: its call is kept
    as the record, in [submitted], of the list and the process count it
    was handed, and it is taken to return and to leave the list as it
    found it. Nothing proved below relies on the second point: the
    properties of a batch speak of the jobs the iteration itself built
    and of properties every job ever built has, which also hold of
    whatever part of the earlier jobs a scheduler would leave in the
    list. The jobs hold file names only, so the scheduler and
    [processJobOutput] leave the generation object as it is. The result
    is the list of active generations, in order. *)
Fixpoint generationLoop (self : JobMaster)
    (generationGeneratorFuction : Generation -> M Generation)
    (genNums : list Z) (previousGeneration : Generation)
    (jobList : list EvolutionJob) : M (list Generation) :=
  match genNums with
  | [] => ret []
  | genNum :: rest =>
      activeGeneration <- generationGeneratorFuction previousGeneration ;;
      jobList <- dispatchMembers self activeGeneration jobList ;;
      modify (set_submitted (fun s => s ++ [(jobList, numProcesses self)])) ;;;
      later <- generationLoop self generationGeneratorFuction rest activeGeneration jobList ;;
      ret (activeGeneration :: later)
  end.

Definition beginTrialMaster (self : JobMaster)
    (generationGeneratorFuction : Generation -> M Generation) : M (list Generation) :=
  let generationCount := generationCount (trialProperties self) in
  let jobList := [] in
  previousGeneration <- importSeedGeneration self ;;
  generationLoop self generationGeneratorFuction (range generationCount)
                 previousGeneration jobList.

End WithExternals.
End LearningJobMaster.

(** ** ControllerJobMaster *)

Module ControllerJobMaster.
Import LearningJobMaster.

Definition NEURAL_NET_DIRECTORY_NAME : string := "NeuralNet/".

(** The text a run of the loop of [writeToNNW] leaves in the file:
    [first] is the flag of the source, [fout] what was written so far. *)
Fixpoint writeToNNW_loop (neuralParams : list pval) (first : bool) (fout : string) : string :=
  match neuralParams with
  | [] => fout
  | x :: rest =>
      if first
      then writeToNNW_loop rest false (fout +:+ str x)
      else writeToNNW_loop rest false (fout +:+ ("," +:+ str x))
  end.

Definition writeToNNW_text (neuralParams : list pval) : string :=
  writeToNNW_loop neuralParams true "".

(** [open(fileName, 'w')] truncates the file, the loop fills it. *)
Definition writeToNNW (neuralParams : list pval) (fileName : string) : M unit :=
  modify (set_files (insert fileName (NNWText (writeToNNW_text neuralParams)))).

(** The loop reads its items through [str] only. Here it is for items of
    any type, [str] being what Python's [str] gives for them, so that what
    is proved of the text written does not rest on how numbers are
    represented. [writeToNNW_loop] is this loop at [pval]. *)
Fixpoint writeToNNW_loop_of {A : Type} (str : A -> string) (neuralParams : list A)
    (first : bool) (fout : string) : string :=
  match neuralParams with
  | [] => fout
  | x :: rest =>
      if first
      then writeToNNW_loop_of str rest false (fout +:+ str x)
      else writeToNNW_loop_of str rest false (fout +:+ ("," +:+ str x))
  end.

Definition writeToNNW_text_of {A : Type} (str : A -> string) (neuralParams : list A)
    : string :=
  writeToNNW_loop_of str neuralParams true "".

(** [getNonNNParams] and [getNNParams] return a dictionary with the one
    key [params]; the value under that key is what is kept here. *)
Definition getNonNNParams (neuralNet : NeuralNetwork) : Params :=
  let numInstances := numberOfInstances neuralNet in
  let numOutputs := numberOfOutputs neuralNet in
  ParamList
    (fold_left (fun params i =>
                  let subParams :=
                    fold_left (fun subParams j => subParams ++ [None]) (range numOutputs) [] in
                  params ++ [subParams])
               (range numInstances) []).

Definition getNNParams (neuralNet : NeuralNetwork) : Params :=
  let numOutputs := numberOfOutputs neuralNet in
  let numStates := numberOfStates neuralNet in
  let numHidden := numberOfHidden neuralNet in
  let totalParams := (numStates + 1) * numHidden + (numHidden + 1) * numOutputs in
  ParamNet {| neuralParams := replicate (Z.to_nat totalParams) None;
              numActions := numOutputs;
              numStates := numStates;
              numHidden := numHidden;
              neuralFilename := None |}.

Definition createEmptyComponent (component : string) (neuralNet : NeuralNetwork)
    (genID : Z) : Candidate :=
  let emptyComponent :=
    if bool_decide (numberOfStates neuralNet = 0)
    then getNonNNParams neuralNet
    else getNNParams neuralNet in
  {| params := emptyComponent; generationID := genID;
     populationID := None; paramID := None; scores := None |}.

(** The value of [baseFileName] in [generateComponentPopulation], for a
    candidate with integer identifiers. *)
Definition baseFileName (self : JobMaster) (componentName : string)
    (genID populationID : Z) : string :=
  fileName (pathInfo (config self)) +:+ "_" +:+ componentName +:+ "_"
  +:+ str_int genID +:+ "_" +:+ str_int populationID +:+ ".nnw".

Section WithExternals.
Context `{E : Externals}.

(** The body of the post-processing loop of [generateComponentPopulation],
    for one candidate of the population. The source assigns paramID,
    scores and params['neuralFilename'] into the candidate's dictionaries
    in place; the record returned is the candidate after these
    assignments. Two candidates that share one params dictionary would
    both read the file name assigned last: [neuralFilename] is the value
    for a candidate whose params dictionary is its own, and the
    properties of a population below speak of identifiers, scores and
    the files written, which sharing does not change. *)
Definition postProcess (self : JobMaster) (componentName : string) (genID : Z)
    (component : Candidate) : M Candidate :=
  spec <- lift (getitem (entries (config self)) componentName) ;;
  let populationSize := PopulationSize spec in
  pid <- lift (match populationID component with
               | Some p => Ok p
               | None => Raise (KeyError "populationID")
               end) ;;
  let newParamID := populationSize * genID + pid in
  match params component with
  | ParamNet net =>
      let baseFileName :=
        fileName (pathInfo (config self)) +:+ "_" +:+ componentName +:+ "_"
        +:+ str_int (generationID component) +:+ "_" +:+ str_int pid +:+ ".nnw" in
      let fileName := trialDirectory self +:+ "/" +:+ NEURAL_NET_DIRECTORY_NAME +:+ baseFileName in
      writeToNNW (neuralParams net) fileName ;;;
      ret {| params := ParamNet {| neuralParams := neuralParams net;
                                   numActions := numActions net;
                                   numStates := numStates net;
                                   numHidden := numHidden net;
                                   neuralFilename := Some (NEURAL_NET_DIRECTORY_NAME +:+ baseFileName) |};
             generationID := generationID component;
             populationID := populationID component;
             paramID := Some newParamID;
             scores := Some [] |}
  | ParamList rows =>
      ret {| params := ParamList rows;
             generationID := generationID component;
             populationID := populationID component;
             paramID := Some newParamID;
             scores := Some [] |}
  end.

Definition generateComponentPopulation (self : JobMaster) (componentName : string)
    (components : gmap string ComponentSpec) (previousGeneration : Generation)
    (genID : Z) : M (list Candidate) :=
  componentDictionary <- lift (getitem components componentName) ;;
  let emptyComponent :=
    createEmptyComponent componentName (neuralNetwork componentDictionary) genID in
  componentPopulation <-
    (fun w =>
       match dispatchLearning componentName componentDictionary emptyComponent
               previousGeneration (rng_draws w) (rng_pos w) with
       | Ok (population, pos) => Ok (population, set_rng_pos pos w)
       | Raise e => Raise e
       end) ;;
  forMap (postProcess self componentName genID) componentPopulation.

Definition generateComponentPopulations (self : JobMaster)
    (componentDictionary : gmap string ComponentSpec) (previousGeneration : Generation)
    (genID : Z) : M (gmap string (list Candidate)) :=
  forFold (fun componentPopulations kv =>
           let componentName := kv.1 in
           population <- generateComponentPopulation self componentName componentDictionary
                           previousGeneration genID ;;
           ret (<[componentName := population]> componentPopulations))
        ∅ (map_to_list componentDictionary).

Definition generationGenerator (self : JobMaster) (previousGeneration : Generation)
    : M Generation :=
  let components := getComponents self in
  let genID := getNewGenerationID (Some previousGeneration) in
  componentPopulations <-
    generateComponentPopulations self components previousGeneration genID ;;
  createNewGeneration self componentPopulations genID.

Definition beginTrial (self : JobMaster) : M (list Generation) :=
  beginTrialMaster self (generationGenerator self).

End WithExternals.
End ControllerJobMaster.

(** ** Reading a weight file back *)

(** What the specification says a reader of a weight file does: split the
    text on commas, cast every piece to a number. The two functions follow
    Python's [s.split(sep)] (one more piece than separators, also for the
    empty text) and a numeric cast that reads the numerals Python prints
    for numbers: an integer, a float with fraction digits, a float with an
    exponent, inf, -inf and nan. [reparse_with] is the reader with any
    cast in its place. *)
Module Reader.

Fixpoint py_split (sep : ascii) (s : string) : list string :=
  match s with
  | EmptyString => [EmptyString]
  | String c rest =>
      if Ascii.eqb c sep then EmptyString :: py_split sep rest
      else match py_split sep rest with
           | piece :: pieces => String c piece :: pieces
           | [] => [String c EmptyString]
           end
  end.

Definition py_cast_exponent (x : string) : option (bool * Decimal.uint) :=
  match x with
  | String c digits =>
      if Ascii.eqb c "+" then pair false <$> NilEmpty.uint_of_string digits
      else if Ascii.eqb c "-" then pair true <$> NilEmpty.uint_of_string digits
      else None
  | EmptyString => None
  end.

Definition py_cast_mantissa (m : string) : option (bool * N * option Decimal.uint) :=
  match py_split "." m with
  | [i] =>
      match NilZero.int_of_string i with
      | Some (Decimal.Pos d) => Some (false, N.of_uint d, None)
      | Some (Decimal.Neg d) => Some (true, N.of_uint d, None)
      | None => None
      end
  | [i; f] =>
      match NilZero.int_of_string i, NilEmpty.uint_of_string f with
      | Some (Decimal.Pos d), Some f' => Some (false, N.of_uint d, Some f')
      | Some (Decimal.Neg d), Some f' => Some (true, N.of_uint d, Some f')
      | _, _ => None
      end
  | _ => None
  end.

Definition py_cast (s : string) : option pynum :=
  if String.eqb s "inf" then Some (PyInf false)
  else if String.eqb s "-inf" then Some (PyInf true)
  else if String.eqb s "nan" then Some PyNan
  else
    match py_split "e" s with
    | [m] =>
        match py_split "." m with
        | [i] => (fun d => PyInt (Z.of_int d)) <$> NilZero.int_of_string i
        | [i; f] =>
            match NilZero.int_of_string i, NilEmpty.uint_of_string f with
            | Some (Decimal.Pos d), Some f' => Some (PyFloat false (N.of_uint d) f')
            | Some (Decimal.Neg d), Some f' => Some (PyFloat true (N.of_uint d) f')
            | _, _ => None
            end
        | _ => None
        end
    | [m; x] =>
        match py_cast_mantissa m, py_cast_exponent x with
        | Some (negative, whole, fraction), Some (exponent_negative, exponent) =>
            Some (PyFloatExp negative whole fraction exponent_negative exponent)
        | _, _ => None
        end
    | _ => None
    end.

Definition reparse (text : string) : option (list pynum) :=
  mapM py_cast (py_split "," text).

Definition reparse_with {A : Type} (cast : string -> option A) (text : string)
    : option (list A) :=
  mapM cast (py_split "," text).

End Reader.

(** ** Fixtures for the examples *)

Module Fixtures.
Import LearningJobMaster ControllerJobMaster.

(** A stand-in for the learning algorithm: [PopulationSize] copies of the
    template, numbered from 0. *)
Definition copies (name : string) (spec : ComponentSpec) (template : Candidate)
    (previous : Generation) (draws : nat -> nat) (pos : nat)
    : result (list Candidate * nat) :=
  Ok ((fun i => {| params := params template; generationID := generationID template;
                   populationID := Some i; paramID := None; scores := None |})
        <$> range (PopulationSize spec), pos).

(** Modelled from the spec: the truth value of a [Generation], which the
    class of [helpersNew] decides; the empty generation is false, any
    other is true. The other collaborators are stand-ins. *)
Definition sized : Externals :=
  {| dispatchLearning := copies;
     Generation_truth := fun g => negb (bool_decide (members g = []));
     abspath := fun p => "/" +:+ p;
     str_dict := fun _ => "{}" |}.

Definition leg : ComponentSpec :=
  {| PopulationSize := 3;
     neuralNetwork := {| numberOfStates := 0; numberOfInstances := 2;
                         numberOfOutputs := 2; numberOfHidden := 0 |} |}.

Definition brain : ComponentSpec :=
  {| PopulationSize := 3;
     neuralNetwork := {| numberOfStates := 2; numberOfInstances := 0;
                         numberOfOutputs := 1; numberOfHidden := 2 |} |}.

Definition paths : PathInfo :=
  {| trialPath := "trial/"; fileName := "m"; executable := "sim"; seedDirectory := "seeds" |}.

Definition cfg (count size : Z) (t : yaml_terrains) : Config :=
  {| pathInfo := paths;
     trialProps := {| generationCount := count; generationSize := size;
                      trialLength := PyInt 60; terrains := t |};
     entries := <["leg" := leg]> (<["brain" := brain]> ∅) |}.

Definition no_disk : Disk :=
  {| isdir := fun _ => false; listdir := fun _ => []; json_load := fun _ => Raise IOError |}.

(** A seed directory holding one member file. *)
Definition seed_member : gmap string mvalue :=
  <["memberID" := MInt 0]> (<["generationID" := MInt (-1)]> ∅).

Definition seed_disk : Disk :=
  {| isdir := fun p => bool_decide (p = "seeds");
     listdir := fun p => if bool_decide (p = "seeds") then ["a.json"] else [];
     json_load := fun p => if bool_decide (p = "/seeds/a.json") then Ok seed_member
                           else Raise IOError |}.

Definition world (d : Disk) : World :=
  {| rng_draws := fun n => (7 * n + 2)%nat; rng_pos := 0; disk := d;
     files := ∅; console := []; submitted := [] |}.

Definition flat : list (list Z) := [[0; 0; 0; 0]].

Definition hilly : list (list Z) := [[1; 0; 0; 2]].

(** The vector [0.1, -2.0, 3]. *)
Definition weights : list pynum :=
  [ PyFloat false 0 (Decimal.D1 Decimal.Nil);
    PyFloat true 2 (Decimal.D0 Decimal.Nil);
    PyInt 3 ].

(** The vector [0.5, 0.00001, float('-inf')]. *)
Definition tiny_weights : list pynum :=
  [ PyFloat false 0 (Decimal.D5 Decimal.Nil);
    PyFloatExp false 1 None true (Decimal.D0 (Decimal.D5 Decimal.Nil));
    PyInf true ].

(** Candidates as the stand-in algorithm numbers them. *)
Definition candidate (spec : ComponentSpec) (genID i : Z) : Candidate :=
  {| params := params (createEmptyComponent "" (neuralNetwork spec) genID);
     generationID := genID; populationID := Some i; paramID := None; scores := None |}.

Definition populations : gmap string (list Candidate) :=
  <["leg" := [candidate leg 0 0; candidate leg 0 1]]> (<["brain" := [candidate brain 0 0]]> ∅).

Definition starved : gmap string (list Candidate) :=
  <["leg" := [candidate leg 0 0]]> (<["brain" := []]> ∅).

(** A seed directory whose second file is not JSON. *)
Definition broken_disk : Disk :=
  {| isdir := fun p => bool_decide (p = "seeds");
     listdir := fun p => if bool_decide (p = "seeds") then ["a.json"; "b.txt"; "c.json"] else [];
     json_load := fun p => if bool_decide (p = "/seeds/b.txt") then Raise ValueError
                           else Ok seed_member |}.

(** A learning algorithm that leaves the template as it is, without a
    population index. *)
Definition unnumbered : Externals :=
  {| dispatchLearning := fun _ _ template _ _ pos => Ok ([template], pos);
     Generation_truth := fun _ => true;
     abspath := fun p => "/" +:+ p;
     str_dict := fun _ => "{}" |}.

(** A learning algorithm that fails on a previous generation. *)
Definition failing : Externals :=
  {| dispatchLearning := fun name _ _ _ _ _ => Raise (MissingComponentError name);
     Generation_truth := fun _ => true;
     abspath := fun p => "/" +:+ p;
     str_dict := fun _ => "{}" |}.

End Fixtures.

(** * Properties *)

Import LearningJobMaster ControllerJobMaster.

(** ** Reasoning about the monad and its loops *)

Lemma bind_Ok {A B} (m : M A) (k : A -> M B) w b w2 :
  bind m k w = Ok (b, w2) <-> exists a w1, m w = Ok (a, w1) /\ k a w1 = Ok (b, w2).
Proof.
  unfold bind. split.
  - destruct (m w) as [[a w1]|e]; [eauto | discriminate].
  - intros (a & w1 & -> & Hk). exact Hk.
Qed.

Lemma bind_Raise {A B} (m : M A) (k : A -> M B) w e :
  m w = Raise e -> bind m k w = Raise e.
Proof. unfold bind. intros ->. reflexivity. Qed.

Lemma lift_Ok {A} (r : result A) w a w' :
  lift r w = Ok (a, w') <-> r = Ok a /\ w' = w.
Proof.
  unfold lift. destruct r; split; intros H; try discriminate.
  - inversion H. auto.
  - destruct H as [H ->]. inversion H. reflexivity.
  - destruct H. discriminate.
Qed.

Ltac inv_bind H :=
  let a := fresh "a" in
  let w := fresh "w" in
  let H1 := fresh H in
  apply bind_Ok in H; destruct H as (a & w & H1 & H).

Lemma forFold_app {A B} (body : B -> A -> M B) (l1 l2 : list A) :
  forall acc w,
    forFold body acc (l1 ++ l2) w =
    bind (forFold body acc l1) (fun acc1 => forFold body acc1 l2) w.
Proof.
  induction l1 as [|x l1 IH]; intros acc w; simpl.
  - reflexivity.
  - unfold bind in *. destruct (body acc x w) as [[acc1 w1]|e]; [apply IH | reflexivity].
Qed.

(** Invariant rule for a loop that ran to its end; the invariant knows how
    many items were consumed. *)
Lemma forFold_counting {A B} (I : nat -> B -> World -> Prop)
    (body : B -> A -> M B) (l : list A) :
  forall acc w acc' w',
    I 0%nat acc w ->
    (forall n b x w1 b' w1', l !! n = Some x -> I n b w1 ->
        body b x w1 = Ok (b', w1') -> I (S n) b' w1') ->
    forFold body acc l w = Ok (acc', w') ->
    I (length l) acc' w'.
Proof.
  induction l as [|x l IH] using rev_ind.
  - intros acc w acc' w' H0 _ H. inversion H. subst. exact H0.
  - intros acc w acc' w' H0 Hstep H.
    rewrite forFold_app in H. inv_bind H. simpl in H. inv_bind H.
    inversion H. subst. rewrite length_app. simpl.
    replace (length l + 1)%nat with (S (length l)) by lia.
    eapply Hstep; [| |exact H2].
    + rewrite lookup_app_r by lia. replace (length l - length l)%nat with 0%nat by lia.
      reflexivity.
    + eapply IH; [exact H0| |exact H1].
      intros n b y w1 b' w1' Hn. apply Hstep.
      rewrite lookup_app_l; [exact Hn|]. eapply lookup_lt_Some; eauto.
Qed.

(** The same rule without the count. *)
Lemma forFold_invariant {A B} (I : B -> World -> Prop)
    (body : B -> A -> M B) (l : list A) acc w acc' w' :
  I acc w ->
  (forall b x w1 b' w1', x ∈ l -> I b w1 -> body b x w1 = Ok (b', w1') -> I b' w1') ->
  forFold body acc l w = Ok (acc', w') ->
  I acc' w'.
Proof.
  intros H0 Hstep H.
  apply (forFold_counting (fun _ => I) body l acc w acc' w' H0); [|exact H].
  intros n b x w1 b' w1' Hn. apply Hstep. eapply list_elem_of_lookup_2; eauto.
Qed.

(** Totality rule: a loop whose body returns under the invariant returns. *)
Lemma forFold_total {A B} (I : B -> World -> Prop)
    (body : B -> A -> M B) (l : list A) :
  forall acc w,
    I acc w ->
    (forall b x w1, x ∈ l -> I b w1 ->
        exists b' w1', body b x w1 = Ok (b', w1') /\ I b' w1') ->
    exists acc' w', forFold body acc l w = Ok (acc', w') /\ I acc' w'.
Proof.
  induction l as [|x l IH]; intros acc w H0 Hstep; simpl.
  - exists acc, w. split; [reflexivity | exact H0].
  - destruct (Hstep acc x w) as (b' & w1' & Hb & HI); [left | exact H0 |].
    destruct (IH b' w1' HI) as (acc' & w' & Hl & HI').
    { intros b y w1 Hy. apply Hstep. right. exact Hy. }
    exists acc', w'. split; [|exact HI'].
    unfold bind. rewrite Hb. exact Hl.
Qed.

(** ** Uniform choice *)

Lemma random_choice_Ok {A} (l : list A) w x w' :
  random_choice l w = Ok (x, w') -> x ∈ l /\ w' = advance_rng w.
Proof.
  unfold random_choice.
  destruct (l !! _) as [y|] eqn:Hy; [|discriminate].
  intros H. inversion H. subst. split; [|reflexivity].
  eapply list_elem_of_lookup_2; eauto.
Qed.

Lemma random_choice_nonempty {A} (l : list A) w :
  l <> [] -> exists x, random_choice l w = Ok (x, advance_rng w) /\ x ∈ l.
Proof.
  intros Hl. unfold random_choice.
  destruct (lookup_lt_is_Some_2 l (rng_draws w (rng_pos w) mod length l)%nat) as [x Hx].
  - apply Nat.mod_upper_bound. destruct l; [congruence | simpl; lia].
  - exists x. rewrite Hx. split; [reflexivity|].
    eapply list_elem_of_lookup_2; eauto.
Qed.

Lemma random_choice_empty {A} w : random_choice (@nil A) w = Raise IndexError.
Proof. reflexivity. Qed.

Lemma random_choice_Raise {A} (l : list A) w e :
  random_choice l w = Raise e -> e = IndexError.
Proof.
  unfold random_choice. destruct (l !! _); [discriminate|].
  intros H. inversion H. reflexivity.
Qed.

(** ** The Generation Assembler *)

Section Assembler.

(** The body of the loop of [chooseComponents]. *)
Let attach (newMember : Member) (kv : string * list Candidate) : M Member :=
  randomPopulation <- random_choice kv.2 ;;
  ret {| components := <[kv.1 := MComponent randomPopulation]> (components newMember) |}.

Lemma attach_list_Ok (l : list (string * list Candidate)) :
  NoDup l.*1 ->
  forall m w m' w',
    forFold attach m l w = Ok (m', w') ->
    (forall k pop, (k, pop) ∈ l ->
        exists c, c ∈ pop /\ components m' !! k = Some (MComponent c)) /\
    (forall k, k ∉ l.*1 -> components m' !! k = components m !! k).
Proof.
  induction l as [|[k0 pop0] l IH]; intros Hnd m w m' w' H.
  - inversion H. subst. split; [|reflexivity].
    intros k pop Hin. inversion Hin.
  - simpl in Hnd. apply NoDup_cons in Hnd as [Hk0 Hnd].
    simpl in H. inv_bind H. unfold attach at 1 in H0. inv_bind H0.
    apply random_choice_Ok in H1 as [Hc ->]. inversion H0. subst. clear H0.
    destruct (IH Hnd _ _ _ _ H) as [IHa IHb]. split.
    + intros k pop Hin. apply elem_of_cons in Hin as [Heq|Hin].
      * inversion Heq. subst. exists a0. split; [exact Hc|].
        rewrite (IHb k0 Hk0). simpl. apply lookup_insert_eq.
      * apply IHa. exact Hin.
    + intros k Hk. simpl in Hk. apply not_elem_of_cons in Hk as [Hne Hk].
      rewrite (IHb k Hk). simpl. apply lookup_insert_ne. congruence.
Qed.

Lemma attach_list_empty (l : list (string * list Candidate)) k :
  (k, []) ∈ l -> forall m w, forFold attach m l w = Raise IndexError.
Proof.
  induction l as [|[k0 pop0] l IH]; intros Hin m w.
  - inversion Hin.
  - simpl. unfold bind at 1. unfold attach at 1. unfold bind at 1. simpl.
    destruct (random_choice pop0 w) as [[c w1]|e] eqn:Hc.
    + apply IH. apply elem_of_cons in Hin as [Heq|Hin]; [|exact Hin].
      inversion Heq. subst. rewrite random_choice_empty in Hc. discriminate.
    + apply random_choice_Raise in Hc. subst. reflexivity.
Qed.

Lemma chooseComponents_Ok cps m w m' w' :
  chooseComponents cps m w = Ok (m', w') ->
  (forall name population, cps !! name = Some population ->
      exists c, c ∈ population /\ components m' !! name = Some (MComponent c)) /\
  dom (components m') = dom cps ∪ dom (components m).
Proof.
  intros H. unfold chooseComponents in H.
  apply (attach_list_Ok _ (NoDup_fst_map_to_list cps)) in H as [Ha Hb].
  assert (Hin : forall name population, cps !! name = Some population ->
            exists c, c ∈ population /\ components m' !! name = Some (MComponent c)).
  { intros name population Hl. apply Ha. apply elem_of_map_to_list. exact Hl. }
  split; [exact Hin|].
  apply set_eq. intros k. rewrite elem_of_union, !elem_of_dom.
  destruct (cps !! k) as [pop|] eqn:Hk.
  - destruct (Hin k pop Hk) as (c & _ & ->). split; [left|]; eauto.
  - rewrite Hb.
    + split; [right; assumption | intros [[? ?]|?]; [discriminate | assumption]].
    + intros Hel. apply list_elem_of_fmap in Hel as ([k' pop] & Heq & Hel).
      simpl in Heq. subst k'. apply elem_of_map_to_list in Hel. congruence.
Qed.

Lemma chooseComponents_total cps m w :
  (forall name population, cps !! name = Some population -> population <> []) ->
  exists m' w', chooseComponents cps m w = Ok (m', w').
Proof.
  intros Hne. unfold chooseComponents.
  destruct (forFold_total (fun _ _ => True) attach (map_to_list cps) m w I)
    as (m' & w' & H & _); [|eauto].
  intros b [k pop] w1 Hin _. apply elem_of_map_to_list in Hin.
  destruct (random_choice_nonempty pop w1 (Hne k pop Hin)) as (c & Hc & _).
  eexists _, _. split; [|exact I]. unfold attach, bind. simpl. rewrite Hc. reflexivity.
Qed.

Lemma chooseComponents_empty cps name m w :
  cps !! name = Some [] -> chooseComponents cps m w = Raise IndexError.
Proof.
  intros H. unfold chooseComponents. apply (attach_list_empty _ name).
  apply elem_of_map_to_list. exact H.
Qed.

End Assembler.

Lemma length_range n : length (range n) = Z.to_nat n.
Proof. unfold range. rewrite length_fmap. apply length_seq. Qed.

Lemma dom_Member_new id genID :
  dom (components (Member_new id genID)) = ({["memberID"; "generationID"]} : gset string).
Proof. unfold Member_new. simpl. rewrite !dom_insert_L, dom_empty_L. set_solver. Qed.

(** What a generation that [createNewGeneration] returned looks like. *)
Lemma createNewGeneration_Ok self cps genID w g w' :
  createNewGeneration self cps genID w = Ok (g, w') ->
  ID g = genID /\
  length (members g) = Z.to_nat (generationSize (trialProps (config self))) /\
  Forall (fun m =>
            (forall name population, cps !! name = Some population ->
                exists c, c ∈ population /\ components m !! name = Some (MComponent c)) /\
            dom (components m) = dom cps ∪ {["memberID"; "generationID"]})
         (members g).
Proof.
  intros H. unfold createNewGeneration in H.
  rewrite <- length_range.
  apply (forFold_counting
           (fun n g _ => ID g = genID /\ length (members g) = n /\
              Forall (fun m =>
                (forall name population, cps !! name = Some population ->
                  exists c, c ∈ population /\ components m !! name = Some (MComponent c)) /\
                dom (components m) = dom cps ∪ {["memberID"; "generationID"]})
                (members g)) _ _ _ _ _ _) in H.
  - exact H.
  - simpl. auto.
  - intros n b id w1 b' w1' _ (Hid & Hlen & Hall) Hbody.
    inv_bind Hbody. inversion Hbody. subst. clear Hbody.
    apply chooseComponents_Ok in Hbody0 as [Ha Hd].
    rewrite dom_Member_new in Hd.
    simpl. rewrite length_app. simpl. split; [reflexivity|]. split; [lia|].
    apply Forall_app. split; [exact Hall|]. constructor; [|constructor]. auto.
Qed.

Lemma createNewGeneration_total self cps genID w :
  (forall name population, cps !! name = Some population -> population <> []) ->
  exists g w', createNewGeneration self cps genID w = Ok (g, w').
Proof.
  intros Hne. unfold createNewGeneration.
  destruct (forFold_total (fun _ _ => True)
              (fun newGeneration id =>
                 newMember <- chooseComponents cps (Member_new id genID) ;;
                 ret (addMember newGeneration newMember))
              (range (generationSize (trialProps (config self))))
              (Generation_new genID) w I) as (g & w' & H & _); [|eauto].
  intros b id w1 _ _.
  destruct (chooseComponents_total cps (Member_new id genID) w1 Hne) as (m' & w1' & Hm).
  eexists _, _. split; [|exact I]. unfold bind. rewrite Hm. reflexivity.
Qed.

Lemma createNewGeneration_empty self cps genID name w :
  0 < generationSize (trialProps (config self)) ->
  cps !! name = Some [] ->
  createNewGeneration self cps genID w = Raise IndexError.
Proof.
  intros Hpos Hname. unfold createNewGeneration, range.
  destruct (Z.to_nat (generationSize (trialProps (config self)))) as [|n] eqn:Hn; [lia|].
  simpl. apply bind_Raise. apply bind_Raise.
  eapply chooseComponents_empty. exact Hname.
Qed.

(** C2: for populations that are all non-empty, [createNewGeneration]
    returns a generation with the configured [generationSize] members, and
    every member holds, for every component name of the input mapping, one
    candidate taken from that component's population; the keys of a member
    are the component names and the two identifiers, nothing else. *)
Theorem createNewGeneration_complete self cps genID w :
  0 <= generationSize (trialProps (config self)) ->
  (forall name population, cps !! name = Some population -> population <> []) ->
  exists g w',
    createNewGeneration self cps genID w = Ok (g, w') /\
    ID g = genID /\
    Z.of_nat (length (members g)) = generationSize (trialProps (config self)) /\
    Forall (fun m =>
              (forall name population, cps !! name = Some population ->
                  exists c, c ∈ population /\ components m !! name = Some (MComponent c)) /\
              dom (components m) = dom cps ∪ {["memberID"; "generationID"]})
           (members g).
Proof.
  intros Hsize Hne.
  destruct (createNewGeneration_total self cps genID w Hne) as (g & w' & H).
  exists g, w'. split; [exact H|].
  apply createNewGeneration_Ok in H as (Hid & Hlen & Hall).
  split; [exact Hid|]. split; [lia | exact Hall].
Qed.

Lemma createNewGeneration_complete_witness :
  exists g w',
    createNewGeneration (@_setup Fixtures.sized (Fixtures.cfg 2 4 (TList [Fixtures.flat])) 1)
      Fixtures.populations 0 (Fixtures.world Fixtures.no_disk) = Ok (g, w') /\
    ID g = 0 /\
    Z.of_nat (length (members g)) = 4 /\
    Forall (fun m =>
              (forall name population, Fixtures.populations !! name = Some population ->
                  exists c, c ∈ population /\ components m !! name = Some (MComponent c)) /\
              dom (components m) = dom Fixtures.populations ∪ {["memberID"; "generationID"]})
           (members g).
Proof.
  apply (createNewGeneration_complete
           (@_setup Fixtures.sized (Fixtures.cfg 2 4 (TList [Fixtures.flat])) 1)
           Fixtures.populations 0 (Fixtures.world Fixtures.no_disk)).
  - simpl. lia.
  - intros name population H. unfold Fixtures.populations in H.
    apply lookup_insert_Some in H as [[_ <-]|[_ H]]; [discriminate|].
    apply lookup_insert_Some in H as [[_ <-]|[_ H]]; [discriminate|].
    rewrite lookup_empty in H. discriminate.
Defined.

(** C10: on a non-empty population the uniform choice returns one of its
    elements; when every population is non-empty [createNewGeneration]
    returns a generation, so the [IndexError] of the choice is not reached;
    with at least one member to build and an empty population it raises
    [IndexError] instead, and such an input exists. *)
Theorem createNewGeneration_nonempty_precondition :
  (forall (population : list Candidate) w, population <> [] ->
      exists c, random_choice population w = Ok (c, advance_rng w) /\ c ∈ population) /\
  (forall self cps genID w,
      (forall name population, cps !! name = Some population -> population <> []) ->
      exists g w', createNewGeneration self cps genID w = Ok (g, w')) /\
  (forall self cps genID name w,
      0 < generationSize (trialProps (config self)) ->
      cps !! name = Some [] ->
      createNewGeneration self cps genID w = Raise IndexError) /\
  (exists self cps genID w,
      (exists name, cps !! name = Some []) /\
      createNewGeneration self cps genID w = Raise IndexError).
Proof.
  split; [intros population w; apply random_choice_nonempty|].
  split; [intros self cps genID w; apply createNewGeneration_total|].
  split; [intros self cps genID name w; apply createNewGeneration_empty|].
  exists (@_setup Fixtures.sized (Fixtures.cfg 2 4 (TList [Fixtures.flat])) 1),
    Fixtures.starved, 0, (Fixtures.world Fixtures.no_disk).
  split; [exists "brain"; reflexivity|].
  apply (createNewGeneration_empty _ _ _ "brain"); [simpl; lia | reflexivity].
Qed.

Lemma createNewGeneration_nonempty_precondition_witness :
  (exists c, random_choice [Fixtures.candidate Fixtures.leg 0 0] (Fixtures.world Fixtures.no_disk)
             = Ok (c, advance_rng (Fixtures.world Fixtures.no_disk)) /\
             c ∈ [Fixtures.candidate Fixtures.leg 0 0]) /\
  (exists g w',
     createNewGeneration (@_setup Fixtures.sized (Fixtures.cfg 2 4 (TList [Fixtures.flat])) 1)
       Fixtures.populations 0 (Fixtures.world Fixtures.no_disk) = Ok (g, w')) /\
  createNewGeneration (@_setup Fixtures.sized (Fixtures.cfg 2 4 (TList [Fixtures.flat])) 1)
    Fixtures.starved 0 (Fixtures.world Fixtures.no_disk) = Raise IndexError.
Proof.
  destruct createNewGeneration_nonempty_precondition as (Hchoice & Htotal & Hempty & _).
  split; [|split].
  - apply Hchoice. discriminate.
  - apply Htotal. intros name population H. unfold Fixtures.populations in H.
    apply lookup_insert_Some in H as [[_ <-]|[_ H]]; [discriminate|].
    apply lookup_insert_Some in H as [[_ <-]|[_ H]]; [discriminate|].
    rewrite lookup_empty in H. discriminate.
  - apply (Hempty _ _ _ "brain"); [simpl; lia | reflexivity].
Defined.

(** ** The template candidate *)

Lemma fold_left_append_const {A B} (x : B) (l : list A) (init : list B) :
  fold_left (fun acc _ => acc ++ [x]) l init = init ++ replicate (length l) x.
Proof.
  revert init. induction l as [|a l IH]; intros init; simpl.
  - symmetry. apply app_nil_r.
  - rewrite IH, <- app_assoc. reflexivity.
Qed.

Lemma getNonNNParams_rows neuralNet :
  getNonNNParams neuralNet =
  ParamList (replicate (Z.to_nat (numberOfInstances neuralNet))
               (replicate (Z.to_nat (numberOfOutputs neuralNet)) None)).
Proof.
  unfold getNonNNParams. rewrite !fold_left_append_const, !length_range. reflexivity.
Qed.

(** C7: with non-negative topology counts, a component with zero states
    gets a nested list of [None] of [numberOfInstances] rows, each of
    [numberOfOutputs] entries; any other component gets a flat vector of
    [None] of length (states + 1) * hidden + (hidden + 1) * outputs with
    [numActions], [numStates] and [numHidden] recorded. *)
Theorem createEmptyComponent_shape component neuralNet genID :
  0 <= numberOfStates neuralNet ->
  0 <= numberOfInstances neuralNet ->
  0 <= numberOfOutputs neuralNet ->
  0 <= numberOfHidden neuralNet ->
  generationID (createEmptyComponent component neuralNet genID) = genID /\
  (numberOfStates neuralNet = 0 ->
     exists rows,
       params (createEmptyComponent component neuralNet genID) = ParamList rows /\
       Z.of_nat (length rows) = numberOfInstances neuralNet /\
       Forall (fun row => Z.of_nat (length row) = numberOfOutputs neuralNet /\
                          Forall (fun x => x = None) row) rows) /\
  (numberOfStates neuralNet <> 0 ->
     exists net,
       params (createEmptyComponent component neuralNet genID) = ParamNet net /\
       Z.of_nat (length (neuralParams net)) =
         (numberOfStates neuralNet + 1) * numberOfHidden neuralNet
         + (numberOfHidden neuralNet + 1) * numberOfOutputs neuralNet /\
       Forall (fun x => x = None) (neuralParams net) /\
       numActions net = numberOfOutputs neuralNet /\
       numStates net = numberOfStates neuralNet /\
       numHidden net = numberOfHidden neuralNet).
Proof.
  intros Hs Hi Ho Hh. split; [reflexivity|]. split.
  - intros H0. unfold createEmptyComponent. simpl.
    rewrite bool_decide_eq_true_2 by exact H0. rewrite getNonNNParams_rows.
    eexists. split; [reflexivity|]. rewrite length_replicate. split; [lia|].
    apply Forall_replicate. rewrite length_replicate. split; [lia|].
    apply Forall_replicate. reflexivity.
  - intros Hne. unfold createEmptyComponent. simpl.
    rewrite bool_decide_eq_false_2 by exact Hne. unfold getNNParams.
    eexists. split; [reflexivity|]. simpl. rewrite length_replicate.
    split; [nia|]. split; [apply Forall_replicate; reflexivity|]. auto.
Qed.

Lemma createEmptyComponent_shape_witness :
  (exists rows,
     params (createEmptyComponent "leg" (neuralNetwork Fixtures.leg) 0) = ParamList rows /\
     Z.of_nat (length rows) = 2 /\
     Forall (fun row => Z.of_nat (length row) = 2 /\ Forall (fun x => x = None) row) rows) /\
  (exists net,
     params (createEmptyComponent "brain" (neuralNetwork Fixtures.brain) 0) = ParamNet net /\
     Z.of_nat (length (neuralParams net)) = 9).
Proof.
  split.
  - apply (createEmptyComponent_shape "leg" (neuralNetwork Fixtures.leg) 0);
      simpl; (lia || reflexivity).
  - destruct (createEmptyComponent_shape "brain" (neuralNetwork Fixtures.brain) 0)
      as (_ & _ & Hnet); [simpl; lia ..|].
    destruct Hnet as (net & Hp & Hlen & _); [simpl; lia|].
    exists net. split; [exact Hp | exact Hlen].
Defined.

(** ** The Population Generator *)

Lemma forMap_Ok {A B} (body : A -> M B) (l : list A) :
  forall w l' w',
    forMap body l w = Ok (l', w') ->
    Forall2 (fun x y => exists w1 w2, body x w1 = Ok (y, w2)) l l'.
Proof.
  induction l as [|x l IH]; intros w l' w' H; simpl in H.
  - inversion H. constructor.
  - inv_bind H. inv_bind H. inversion H. subst. constructor; eauto.
Qed.

Lemma forMap_total {A B} (body : A -> M B) (l : list A) :
  (forall x w, x ∈ l -> exists y w', body x w = Ok (y, w')) ->
  forall w, exists l' w', forMap body l w = Ok (l', w') /\ length l' = length l.
Proof.
  induction l as [|x l IH]; intros Hbody w; simpl.
  - exists [], w. split; reflexivity.
  - destruct (Hbody x w) as (y & w1 & Hy); [left|].
    destruct IH with (w := w1) as (l' & w' & Hl & Hlen).
    { intros z w2 Hz. apply Hbody. right. exact Hz. }
    exists (y :: l'), w'. unfold bind. rewrite Hy, Hl. simpl.
    split; [reflexivity | congruence].
Qed.

Section PopulationGenerator.
Context `{E : Externals}.

Lemma postProcess_Ok self componentName genID component w component' w' :
  postProcess self componentName genID component w = Ok (component', w') ->
  exists spec i,
    entries (config self) !! componentName = Some spec /\
    populationID component = Some i /\
    populationID component' = Some i /\
    paramID component' = Some (PopulationSize spec * genID + i) /\
    scores component' = Some [] /\
    generationID component' = generationID component.
Proof.
  intros H. unfold postProcess in H. inv_bind H.
  apply lift_Ok in H0 as [Hspec ->]. unfold getitem in Hspec.
  destruct (entries (config self) !! componentName) as [spec|] eqn:Hentry; [|discriminate].
  inversion Hspec. subst a. clear Hspec.
  inv_bind H. apply lift_Ok in H0 as [Hpid ->].
  destruct (populationID component) as [i|] eqn:Hi; [|discriminate].
  inversion Hpid. subst a. clear Hpid.
  exists spec, i. split; [reflexivity|]. split; [reflexivity|].
  destruct (params component) as [rows|net].
  - inversion H. subst. simpl. auto.
  - inv_bind H. inversion H. subst. simpl. auto.
Qed.

Lemma postProcess_total self componentName genID component w spec i :
  entries (config self) !! componentName = Some spec ->
  populationID component = Some i ->
  exists component' w', postProcess self componentName genID component w = Ok (component', w').
Proof.
  intros Hspec Hi. unfold postProcess, getitem, bind, lift. rewrite Hspec, Hi.
  destruct (params component); simpl; eauto.
Qed.

Lemma generateComponentPopulation_Ok self componentName components previousGeneration
    genID w population w' :
  generateComponentPopulation self componentName components previousGeneration genID w
    = Ok (population, w') ->
  Forall (fun c => exists spec i,
            entries (config self) !! componentName = Some spec /\
            populationID c = Some i /\
            paramID c = Some (PopulationSize spec * genID + i))
         population.
Proof.
  intros H. unfold generateComponentPopulation in H.
  inv_bind H. inv_bind H. apply forMap_Ok in H. clear H0 H1.
  induction H as [|c c' l l' (wa & wb & Hc) _ IH]; [constructor|].
  constructor; [|exact IH].
  apply postProcess_Ok in Hc as (spec & i & Hs & _ & Hi & Hp & _). eauto.
Qed.

Lemma generateComponentPopulation_total self componentName components previousGeneration
    genID w spec spec' raw pos :
  components !! componentName = Some spec' ->
  entries (config self) !! componentName = Some spec ->
  dispatchLearning componentName spec'
    (createEmptyComponent componentName (neuralNetwork spec') genID) previousGeneration
    (rng_draws w) (rng_pos w) = Ok (raw, pos) ->
  Forall (fun c => is_Some (populationID c)) raw ->
  exists population w',
    generateComponentPopulation self componentName components previousGeneration genID w
      = Ok (population, w') /\
    length population = length raw.
Proof.
  intros Hc Hs Hd Hraw. unfold generateComponentPopulation.
  destruct (forMap_total (postProcess self componentName genID) raw)
    with (w := set_rng_pos pos w)
    as (population & w' & Hp & Hlen).
  { intros c w2 Hin. rewrite Forall_forall in Hraw. destruct (Hraw c Hin) as [i Hi].
    eapply postProcess_total; eauto. }
  exists population, w'. split; [|exact Hlen].
  unfold bind, lift, getitem. rewrite Hc, Hd. exact Hp.
Qed.

End PopulationGenerator.

(** The arithmetic behind the identifier: within a component, the pair
    (generation, index below the population size) is recovered from it. *)
Lemma paramID_injective size g1 i1 g2 i2 :
  0 <= i1 < size -> 0 <= i2 < size ->
  size * g1 + i1 = size * g2 + i2 -> g1 = g2 /\ i1 = i2.
Proof. intros H1 H2 Heq. assert (g1 = g2) by nia. subst. lia. Qed.

(** C1: every candidate of a population returned by
    [generateComponentPopulation] for a component and a generation index
    carries [paramID = PopulationSize * generationID + populationID]; when
    the population index is below the population size the identifier lies
    in the block of that generation; and two candidates of one component
    with indices below the population size that carry the same identifier
    come from the same generation index and have the same index. *)
Theorem paramID_block_and_unique `{E : Externals} self componentName spec :
  entries (config self) !! componentName = Some spec ->
  (forall components previousGeneration genID w population w',
      generateComponentPopulation self componentName components previousGeneration genID w
        = Ok (population, w') ->
      Forall (fun c => exists i id,
                populationID c = Some i /\ paramID c = Some id /\
                id = PopulationSize spec * genID + i /\
                (0 <= i < PopulationSize spec ->
                 PopulationSize spec * genID <= id
                   < PopulationSize spec * genID + PopulationSize spec))
             population) /\
  (forall components1 previous1 g1 w1 population1 w1'
          components2 previous2 g2 w2 population2 w2' c1 c2 i1 i2,
      generateComponentPopulation self componentName components1 previous1 g1 w1
        = Ok (population1, w1') ->
      generateComponentPopulation self componentName components2 previous2 g2 w2
        = Ok (population2, w2') ->
      c1 ∈ population1 -> c2 ∈ population2 ->
      populationID c1 = Some i1 -> populationID c2 = Some i2 ->
      0 <= i1 < PopulationSize spec -> 0 <= i2 < PopulationSize spec ->
      paramID c1 = paramID c2 ->
      g1 = g2 /\ i1 = i2).
Proof.
  intros Hspec. split.
  - intros components previousGeneration genID w population w' H.
    apply generateComponentPopulation_Ok in H.
    eapply Forall_impl; [exact H|]. simpl.
    intros c (spec' & i & Hs & Hi & Hp). rewrite Hspec in Hs. inversion Hs. subst spec'.
    exists i, (PopulationSize spec * genID + i).
    split; [exact Hi|]. split; [exact Hp|]. split; [reflexivity | lia].
  - intros components1 previous1 g1 w1 population1 w1'
           components2 previous2 g2 w2 population2 w2' c1 c2 i1 i2
           H1 H2 Hc1 Hc2 Hi1 Hi2 Hr1 Hr2 Heq.
    apply generateComponentPopulation_Ok in H1, H2.
    rewrite Forall_forall in H1, H2.
    destruct (H1 c1 Hc1) as (s1 & j1 & Hs1 & Hj1 & Hp1).
    destruct (H2 c2 Hc2) as (s2 & j2 & Hs2 & Hj2 & Hp2).
    rewrite Hspec in Hs1, Hs2. inversion Hs1. inversion Hs2. subst s1 s2.
    rewrite Hi1 in Hj1. rewrite Hi2 in Hj2. inversion Hj1. inversion Hj2. subst j1 j2.
    rewrite Hp1, Hp2 in Heq. inversion Heq.
    eapply paramID_injective; eauto.
Qed.

Lemma paramID_block_and_unique_witness :
  exists population w',
    @generateComponentPopulation Fixtures.sized
      (@_setup Fixtures.sized (Fixtures.cfg 2 4 (TList [Fixtures.flat])) 1)
      "brain" (entries (Fixtures.cfg 2 4 (TList [Fixtures.flat])))
      (Generation_new (-1)) 1 (Fixtures.world Fixtures.no_disk) = Ok (population, w') /\
    length population = 3%nat /\
    Forall (fun c => exists i id,
              populationID c = Some i /\ paramID c = Some id /\
              id = PopulationSize Fixtures.brain * 1 + i /\
              (0 <= i < PopulationSize Fixtures.brain ->
               PopulationSize Fixtures.brain * 1 <= id
                 < PopulationSize Fixtures.brain * 1 + PopulationSize Fixtures.brain))
           population /\
    (1 = 1 /\ 0 = 0).
Proof.
  assert (Hspec : entries (config (@_setup Fixtures.sized
                     (Fixtures.cfg 2 4 (TList [Fixtures.flat])) 1)) !! "brain"
                  = Some Fixtures.brain) by reflexivity.
  destruct (@generateComponentPopulation Fixtures.sized
              (@_setup Fixtures.sized (Fixtures.cfg 2 4 (TList [Fixtures.flat])) 1)
              "brain" (entries (Fixtures.cfg 2 4 (TList [Fixtures.flat])))
              (Generation_new (-1)) 1 (Fixtures.world Fixtures.no_disk))
    as [[population w']|e] eqn:Hrun; [|vm_compute in Hrun; discriminate].
  exists population, w'. split; [reflexivity|].
  pose proof Hrun as Hvalue. vm_compute in Hvalue. injection Hvalue as Hpop _.
  split; [rewrite <- Hpop; reflexivity|]. split.
  - exact (proj1 (@paramID_block_and_unique Fixtures.sized _ "brain" Fixtures.brain Hspec)
             _ _ _ _ _ _ Hrun).
  - match type of Hpop with
    | (?c :: _) = _ =>
        apply (proj2 (@paramID_block_and_unique Fixtures.sized _ "brain" Fixtures.brain Hspec)
                 _ _ _ _ _ _ _ _ _ _ _ _ c c 0 0 Hrun Hrun)
    end; try (rewrite <- Hpop; left); try reflexivity; simpl; lia.
Defined.

(** ** Weight files *)

Lemma append_cons x (a b : string) : String x a +:+ b = String x (a +:+ b).
Proof. reflexivity. Qed.

Lemma append_assoc (a b c : string) : (a +:+ b) +:+ c = a +:+ (b +:+ c).
Proof.
  induction a as [|x a IH]; [reflexivity|].
  rewrite !append_cons, IH. reflexivity.
Qed.

Lemma chars_append (a b : string) :
  list_ascii_of_string (a +:+ b) = list_ascii_of_string a ++ list_ascii_of_string b.
Proof.
  induction a as [|x a IH]; [reflexivity|].
  rewrite append_cons. simpl. rewrite IH. reflexivity.
Qed.

(** The loop past its first item: every further item is written after a
    comma. *)
Lemma writeToNNW_loop_join xs :
  forall x fout,
    writeToNNW_loop xs false (fout +:+ str x) =
    fout +:+ String.concat "," (str <$> (x :: xs)).
Proof.
  induction xs as [|y xs IH]; intros x fout.
  - reflexivity.
  - cbn [writeToNNW_loop]. rewrite <- append_assoc.
    rewrite (IH y ((fout +:+ str x) +:+ ",")).
    rewrite !append_assoc. reflexivity.
Qed.

Lemma writeToNNW_text_join xs :
  writeToNNW_text xs = String.concat "," (str <$> xs).
Proof.
  destruct xs as [|x xs]; [reflexivity|].
  unfold writeToNNW_text. cbn [writeToNNW_loop].
  apply (writeToNNW_loop_join xs x "").
Qed.

Lemma py_split_piece sep p s :
  sep ∉ list_ascii_of_string p ->
  Reader.py_split sep (p +:+ String sep s) = p :: Reader.py_split sep s.
Proof.
  induction p as [|c p IH]; intros Hfree.
  - change ("" +:+ String sep s) with (String sep s). simpl.
    rewrite Ascii.eqb_refl. reflexivity.
  - rewrite append_cons. simpl.
    simpl in Hfree. apply not_elem_of_cons in Hfree as [Hne Hfree].
    destruct (Ascii.eqb_spec c sep) as [->|_]; [congruence|].
    rewrite (IH Hfree). reflexivity.
Qed.

Lemma py_split_last sep p :
  sep ∉ list_ascii_of_string p -> Reader.py_split sep p = [p].
Proof.
  induction p as [|c p IH]; intros Hfree; simpl; [reflexivity|].
  simpl in Hfree. apply not_elem_of_cons in Hfree as [Hne Hfree].
  destruct (Ascii.eqb_spec c sep) as [->|_]; [congruence|].
  rewrite (IH Hfree). reflexivity.
Qed.

Lemma py_split_join sep pieces :
  pieces <> [] ->
  Forall (fun p => sep ∉ list_ascii_of_string p) pieces ->
  Reader.py_split sep (String.concat (String sep "") pieces) = pieces.
Proof.
  induction pieces as [|p pieces IH]; intros Hne Hfree; [congruence|].
  apply Forall_cons in Hfree as [Hp Hfree].
  destruct pieces as [|q pieces].
  - simpl. apply py_split_last. exact Hp.
  - change (String.concat (String sep "") (p :: q :: pieces))
      with (p +:+ String sep (String.concat (String sep "") (q :: pieces))).
    rewrite (py_split_piece _ _ _ Hp). f_equal. apply IH; [discriminate | exact Hfree].
Qed.

Lemma uint_chars d c :
  c ∈ list_ascii_of_string (NilEmpty.string_of_uint d) ->
  c <> ","%char /\ c <> "."%char.
Proof.
  induction d as [|d IH|d IH|d IH|d IH|d IH|d IH|d IH|d IH|d IH|d IH]; simpl; intros Hin;
    [inversion Hin | apply elem_of_cons in Hin as [->|Hin]; [split; discriminate | auto] ..].
Qed.

Lemma int_chars i c :
  c ∈ list_ascii_of_string (NilZero.string_of_int i) ->
  c <> ","%char /\ c <> "."%char.
Proof.
  assert (Hu : forall d, c ∈ list_ascii_of_string (NilZero.string_of_uint d) ->
                         c <> ","%char /\ c <> "."%char).
  { intros d. unfold NilZero.string_of_uint. destruct d; try apply uint_chars.
    simpl. intros Hin. apply elem_of_cons in Hin as [->|Hin];
      [split; discriminate | inversion Hin]. }
  destruct i as [d|d]; simpl; [apply Hu|].
  intros Hin. apply elem_of_cons in Hin as [->|Hin]; [split; discriminate | eauto].
Qed.

Lemma N_to_uint_nonnil n : N.to_uint n <> Decimal.Nil.
Proof. destruct n; simpl; [discriminate | apply DecimalPos.Unsigned.to_uint_nonnil]. Qed.

Lemma int_of_string_signed negative whole :
  NilZero.int_of_string (NilZero.string_of_int (signed negative whole)) =
  Some (signed negative whole).
Proof.
  apply NilZero.isi; unfold signed; destruct negative; try discriminate;
    intros H; inversion H; eapply N_to_uint_nonnil; eauto.
Qed.

Lemma int_of_string_to_int z :
  NilZero.int_of_string (NilZero.string_of_int (Z.to_int z)) = Some (Z.to_int z).
Proof.
  apply NilZero.isi; destruct z; simpl; try discriminate;
    intros H; inversion H; eapply DecimalPos.Unsigned.to_uint_nonnil; eauto.
Qed.

(** The characters of a numeral are digits and a sign: no comma, no
    point, and neither of the letters e and n. *)
Lemma uint_numeral d c :
  c ∈ list_ascii_of_string (NilEmpty.string_of_uint d) ->
  c <> ","%char /\ c <> "."%char /\ c <> "e"%char /\ c <> "n"%char.
Proof.
  induction d as [|d IH|d IH|d IH|d IH|d IH|d IH|d IH|d IH|d IH|d IH]; simpl; intros Hin;
    [inversion Hin
    | apply elem_of_cons in Hin as [->|Hin]; [repeat split; discriminate | auto] ..].
Qed.

Lemma int_numeral i c :
  c ∈ list_ascii_of_string (NilZero.string_of_int i) ->
  c <> ","%char /\ c <> "."%char /\ c <> "e"%char /\ c <> "n"%char.
Proof.
  assert (Hu : forall d,
             c ∈ list_ascii_of_string (NilZero.string_of_uint d) ->
             c <> ","%char /\ c <> "."%char /\ c <> "e"%char /\ c <> "n"%char).
  { intros d. unfold NilZero.string_of_uint. destruct d; try apply uint_numeral.
    simpl. intros Hin. apply elem_of_cons in Hin as [->|Hin];
      [repeat split; discriminate | inversion Hin]. }
  destruct i as [d|d]; simpl; [apply Hu|].
  intros Hin. apply elem_of_cons in Hin as [->|Hin]; [repeat split; discriminate | eauto].
Qed.

Lemma mantissa_chars negative whole fraction c :
  c ∈ list_ascii_of_string
        (NilZero.string_of_int (signed negative whole)
         +:+ match fraction with
             | Some digits => "." +:+ NilEmpty.string_of_uint digits
             | None => ""
             end) ->
  c <> ","%char /\ c <> "e"%char /\ c <> "n"%char.
Proof.
  rewrite chars_append. intros Hin. apply elem_of_app in Hin as [Hin|Hin].
  - apply int_numeral in Hin. tauto.
  - destruct fraction as [digits|]; [|inversion Hin].
    change ("." +:+ NilEmpty.string_of_uint digits)
      with (String "."%char (NilEmpty.string_of_uint digits)) in Hin.
    simpl in Hin. apply elem_of_cons in Hin as [->|Hin]; [repeat split; discriminate|].
    apply uint_numeral in Hin. tauto.
Qed.

Lemma exponent_chars (exponent_negative : bool) exponent c :
  c ∈ list_ascii_of_string
        ((if exponent_negative then "-" else "+")%string +:+ NilEmpty.string_of_uint exponent) ->
  c <> ","%char /\ c <> "e"%char /\ c <> "n"%char.
Proof.
  rewrite chars_append. intros Hin. apply elem_of_app in Hin as [Hin|Hin].
  - destruct exponent_negative; simpl in Hin;
      apply elem_of_cons in Hin as [->|Hin]; try (repeat split; discriminate);
      inversion Hin.
  - apply uint_numeral in Hin. tauto.
Qed.

Lemma str_num_exp negative whole fraction (exponent_negative : bool) exponent :
  str_num (PyFloatExp negative whole fraction exponent_negative exponent) =
  (NilZero.string_of_int (signed negative whole)
   +:+ match fraction with
       | Some digits => "." +:+ NilEmpty.string_of_uint digits
       | None => ""
       end)
  +:+ String "e"%char
        ((if exponent_negative then "-" else "+")%string +:+ NilEmpty.string_of_uint exponent).
Proof. simpl. rewrite !append_assoc. reflexivity. Qed.

Lemma str_num_chars n c :
  c ∈ list_ascii_of_string (str_num n) -> c <> ","%char.
Proof.
  destruct n as [z|negative whole fraction|negative whole fraction en ex|negative|].
  - simpl. intros Hin. apply int_numeral in Hin. tauto.
  - intros Hin. apply (mantissa_chars negative whole (Some fraction)) in Hin. tauto.
  - rewrite str_num_exp, chars_append. intros Hin.
    apply elem_of_app in Hin as [Hin|Hin]; [apply mantissa_chars in Hin; tauto|].
    simpl in Hin. apply elem_of_cons in Hin as [->|Hin]; [discriminate|].
    apply exponent_chars in Hin. tauto.
  - destruct negative; simpl; intros Hin;
      repeat (apply elem_of_cons in Hin as [->|Hin]; [discriminate|]); inversion Hin.
  - simpl; intros Hin;
      repeat (apply elem_of_cons in Hin as [->|Hin]; [discriminate|]); inversion Hin.
Qed.

(** A text without the letter n is none of inf, -inf and nan. *)
Lemma not_special s :
  "n"%char ∉ list_ascii_of_string s ->
  String.eqb s "inf" = false /\ String.eqb s "-inf" = false /\ String.eqb s "nan" = false.
Proof.
  intros Hn. repeat split; apply String.eqb_neq; intros ->; apply Hn; simpl;
    repeat constructor.
Qed.

Lemma py_cast_mantissa_str negative whole fraction :
  Reader.py_cast_mantissa
    (NilZero.string_of_int (signed negative whole)
     +:+ match fraction with
         | Some digits => "." +:+ NilEmpty.string_of_uint digits
         | None => ""
         end) = Some (negative, whole, fraction).
Proof.
  unfold Reader.py_cast_mantissa. destruct fraction as [digits|].
  - change ("." +:+ NilEmpty.string_of_uint digits)
      with (String "."%char (NilEmpty.string_of_uint digits)).
    rewrite py_split_piece.
    + rewrite py_split_last.
      * rewrite int_of_string_signed, NilEmpty.usu.
        unfold signed. destruct negative; rewrite DecimalN.Unsigned.of_to; reflexivity.
      * intros Hin. apply uint_numeral in Hin. tauto.
    + intros Hin. apply int_numeral in Hin. tauto.
  - replace (NilZero.string_of_int (signed negative whole) +:+ "")
      with (NilZero.string_of_int (signed negative whole)).
    + rewrite py_split_last.
      * rewrite int_of_string_signed.
        unfold signed. destruct negative; rewrite DecimalN.Unsigned.of_to; reflexivity.
      * intros Hin. apply int_numeral in Hin. tauto.
    + generalize (NilZero.string_of_int (signed negative whole)).
      intros s. induction s as [|c s IH]; [reflexivity|].
      rewrite append_cons, <- IH. reflexivity.
Qed.

Lemma py_cast_exponent_str (exponent_negative : bool) exponent :
  Reader.py_cast_exponent
    ((if exponent_negative then "-" else "+")%string +:+ NilEmpty.string_of_uint exponent)
  = Some (exponent_negative, exponent).
Proof.
  destruct exponent_negative.
  - change ("-" +:+ NilEmpty.string_of_uint exponent)
      with (String "-"%char (NilEmpty.string_of_uint exponent)).
    unfold Reader.py_cast_exponent. simpl. rewrite NilEmpty.usu. reflexivity.
  - change ("+" +:+ NilEmpty.string_of_uint exponent)
      with (String "+"%char (NilEmpty.string_of_uint exponent)).
    unfold Reader.py_cast_exponent. simpl. rewrite NilEmpty.usu. reflexivity.
Qed.

(** Casting the text of a number gives the number back. *)
Lemma py_cast_str_num n : Reader.py_cast (str_num n) = Some n.
Proof.
  destruct n as [z|negative whole fraction|negative whole fraction en ex|negative|];
    [| | |destruct negative; reflexivity|reflexivity].
  - unfold Reader.py_cast.
    destruct (not_special (str_num (PyInt z))) as (-> & -> & ->).
    { intros Hin. simpl in Hin. apply int_numeral in Hin. tauto. }
    simpl. rewrite py_split_last.
    + rewrite py_split_last.
      * rewrite int_of_string_to_int. simpl. rewrite DecimalZ.of_to. reflexivity.
      * intros Hin. apply int_numeral in Hin. tauto.
    + intros Hin. apply int_numeral in Hin. tauto.
  - unfold Reader.py_cast.
    destruct (not_special (str_num (PyFloat negative whole fraction))) as (-> & -> & ->).
    { intros Hin. apply (mantissa_chars negative whole (Some fraction)) in Hin. tauto. }
    rewrite py_split_last.
    + simpl.
      change ("." +:+ NilEmpty.string_of_uint fraction)
        with (String "."%char (NilEmpty.string_of_uint fraction)).
      rewrite py_split_piece.
      * rewrite py_split_last.
        -- rewrite int_of_string_signed, NilEmpty.usu.
           unfold signed. destruct negative; rewrite DecimalN.Unsigned.of_to; reflexivity.
        -- intros Hin. apply uint_numeral in Hin. tauto.
      * intros Hin. apply int_numeral in Hin. tauto.
    + intros Hin. apply (mantissa_chars negative whole (Some fraction)) in Hin. tauto.
  - unfold Reader.py_cast.
    destruct (not_special (str_num (PyFloatExp negative whole fraction en ex)))
      as (-> & -> & ->).
    { rewrite str_num_exp, chars_append. intros Hin.
      apply elem_of_app in Hin as [Hin|Hin]; [apply mantissa_chars in Hin; tauto|].
      simpl in Hin. apply elem_of_cons in Hin as [Hin|Hin]; [discriminate|].
      apply exponent_chars in Hin. tauto. }
    rewrite str_num_exp, py_split_piece.
    + rewrite py_split_last.
      * rewrite py_cast_mantissa_str, py_cast_exponent_str. reflexivity.
      * intros Hin. apply exponent_chars in Hin. tauto.
    + intros Hin. apply mantissa_chars in Hin. tauto.
Qed.

Lemma reparse_written numbers :
  numbers <> [] ->
  Reader.reparse (writeToNNW_text (Some <$> numbers)) = Some numbers.
Proof.
  intros Hne. unfold Reader.reparse. rewrite writeToNNW_text_join.
  rewrite <- list_fmap_compose.
  change (String.concat "," ((str ∘ Some) <$> numbers))
    with (String.concat (String ","%char "") (str_num <$> numbers)).
  rewrite py_split_join.
  - clear Hne. induction numbers as [|n numbers IH]; [reflexivity|].
    cbn [fmap list_fmap mapM]. rewrite py_cast_str_num. simpl.
    change (mapM Reader.py_cast (list_fmap pynum string str_num numbers))
      with (mapM Reader.py_cast (str_num <$> numbers)).
    rewrite IH. reflexivity.
  - destruct numbers; [congruence | discriminate].
  - apply Forall_fmap, Forall_forall. intros n _ Hin. simpl in Hin.
    apply str_num_chars in Hin. congruence.
Qed.

Lemma writeToNNW_loop_of_join {A} (to_text : A -> string) xs :
  forall x fout,
    writeToNNW_loop_of to_text xs false (fout +:+ to_text x) =
    fout +:+ String.concat "," (to_text <$> (x :: xs)).
Proof.
  induction xs as [|y xs IH]; intros x fout.
  - reflexivity.
  - cbn [writeToNNW_loop_of]. rewrite <- append_assoc.
    rewrite (IH y ((fout +:+ to_text x) +:+ ",")).
    rewrite !append_assoc. reflexivity.
Qed.

Lemma writeToNNW_text_of_join {A} (to_text : A -> string) xs :
  writeToNNW_text_of to_text xs = String.concat "," (to_text <$> xs).
Proof.
  destruct xs as [|x xs]; [reflexivity|].
  unfold writeToNNW_text_of. cbn [writeToNNW_loop_of].
  apply (writeToNNW_loop_of_join to_text xs x "").
Qed.

(** Casting the texts of a vector, piece by piece: with a cast that gives
    for the text of a number a number of the same text, the result is a
    vector of the same texts; with a cast that gives the number itself,
    it is the vector. *)
Lemma cast_texts {A} (to_text : A -> string) (cast : string -> option A) xs :
  (forall x, x ∈ xs -> exists y, cast (to_text x) = Some y /\ to_text y = to_text x) ->
  exists parsed,
    mapM cast (to_text <$> xs) = Some parsed /\ to_text <$> parsed = to_text <$> xs.
Proof.
  induction xs as [|x xs IH]; intros Hcast.
  - exists []. split; reflexivity.
  - destruct (Hcast x) as (y & Hy & Hsame); [left|].
    destruct IH as (parsed & Hparsed & Htexts); [intros z Hz; apply Hcast; right; exact Hz|].
    exists (y :: parsed). split.
    + apply mapM_Some. rewrite fmap_cons. constructor; [exact Hy|].
      apply mapM_Some. exact Hparsed.
    + rewrite !fmap_cons, Hsame, Htexts. reflexivity.
Qed.

Lemma cast_texts_exact {A} (to_text : A -> string) (cast : string -> option A) xs :
  (forall x, x ∈ xs -> cast (to_text x) = Some x) ->
  mapM cast (to_text <$> xs) = Some xs.
Proof.
  intros Hcast. apply mapM_Some. apply Forall2_fmap_l, Forall_Forall2_diag, Forall_forall.
  exact Hcast.
Qed.

(** C6 (amended): [writeToNNW] leaves in the file the textual forms of
    the items joined by commas, nothing before or after; the vector
    [0.1, -2.0, 3] gives the text [0.1,-2.0,3]. The loop is the same for
    items of any type. For every non-empty vector of numbers of any kind,
    none of whose texts holds a comma, splitting the text written on
    commas gives exactly the texts of the elements, in order; so casting
    the pieces gives the vector back up to textual precision, that is a
    vector of numbers with the same texts, whenever the cast of a
    number's text is a number with that text, and the vector itself
    whenever the cast of a number's text is that number. So it is for
    the numbers of [pynum], the integers and the floats in every shape
    [str] prints, read by [py_cast]: for every non-empty vector of them
    splitting and casting gives the vector back. For the empty vector
    the text is empty, and splitting it gives one empty piece. *)
Theorem writeToNNW_round_trip :
  (forall neuralParams fileName w,
      writeToNNW neuralParams fileName w =
      Ok (tt, set_files (insert fileName
                (NNWText (String.concat "," (str <$> neuralParams)))) w)) /\
  writeToNNW_text (Some <$> Fixtures.weights) = "0.1,-2.0,3" /\
  (forall neuralParams,
      writeToNNW_text neuralParams = writeToNNW_text_of str neuralParams) /\
  (forall (Num : Type) (num_str : Num -> string) (cast : string -> option Num)
          (numbers : list Num),
      numbers <> [] ->
      (forall x, x ∈ numbers -> ","%char ∉ list_ascii_of_string (num_str x)) ->
      writeToNNW_text_of num_str numbers = String.concat "," (num_str <$> numbers) /\
      Reader.py_split "," (writeToNNW_text_of num_str numbers) = num_str <$> numbers /\
      ((forall x, x ∈ numbers ->
           exists y, cast (num_str x) = Some y /\ num_str y = num_str x) ->
       exists parsed,
         Reader.reparse_with cast (writeToNNW_text_of num_str numbers) = Some parsed /\
         num_str <$> parsed = num_str <$> numbers) /\
      ((forall x, x ∈ numbers -> cast (num_str x) = Some x) ->
       Reader.reparse_with cast (writeToNNW_text_of num_str numbers) = Some numbers)) /\
  (forall numbers, numbers <> [] ->
      Reader.reparse (writeToNNW_text (Some <$> numbers)) = Some numbers) /\
  writeToNNW_text [] = "" /\
  Reader.py_split "," "" = [""].
Proof.
  split.
  { intros neuralParams fileName w. unfold writeToNNW, modify.
    rewrite writeToNNW_text_join. reflexivity. }
  split; [reflexivity|].
  split; [intros l; rewrite writeToNNW_text_join, writeToNNW_text_of_join; reflexivity|].
  split; [|split; [apply reparse_written | split; reflexivity]].
  intros Num num_str cast numbers Hne Hfree.
  assert (Hsplit : Reader.py_split "," (writeToNNW_text_of num_str numbers)
                   = num_str <$> numbers).
  { rewrite writeToNNW_text_of_join. apply py_split_join.
    - destruct numbers; [congruence | discriminate].
    - apply Forall_fmap, Forall_forall. exact Hfree. }
  split; [apply writeToNNW_text_of_join|]. split; [exact Hsplit|].
  unfold Reader.reparse_with. rewrite Hsplit. split.
  - apply cast_texts.
  - apply cast_texts_exact.
Qed.

Lemma writeToNNW_round_trip_witness :
  Reader.reparse_with Reader.py_cast (writeToNNW_text_of str_num Fixtures.weights)
  = Some Fixtures.weights /\
  writeToNNW_text (Some <$> Fixtures.tiny_weights) = "0.5,1e-05,-inf" /\
  Reader.reparse (writeToNNW_text (Some <$> Fixtures.tiny_weights))
  = Some Fixtures.tiny_weights.
Proof.
  split; [|split; [reflexivity|]].
  - apply (proj1 (proj2 (proj2 (proj2 writeToNNW_round_trip)))
             pynum str_num Reader.py_cast Fixtures.weights).
    + discriminate.
    + intros x _ Hin. apply str_num_chars in Hin. congruence.
    + intros x _. apply py_cast_str_num.
  - apply (proj1 (proj2 (proj2 (proj2 (proj2 writeToNNW_round_trip))))
             Fixtures.tiny_weights).
    discriminate.
Defined.

(** C6 (counterexample): the round trip fails on the empty vector; the
    text is empty, its one piece is no number. *)
Lemma writeToNNW_empty_vector_lost :
  Reader.reparse (writeToNNW_text (Some <$> [])) <> Some [].
Proof. vm_compute. discriminate. Qed.

(** ** The run: what reaches the scheduler *)

Lemma forMap_invariant {A B} (I : World -> Prop) (body : A -> M B) (l : list A) :
  forall w l' w',
    I w ->
    (forall x w1 y w2, x ∈ l -> I w1 -> body x w1 = Ok (y, w2) -> I w2) ->
    forMap body l w = Ok (l', w') ->
    I w'.
Proof.
  induction l as [|x l IH]; intros w l' w' H0 Hstep H; simpl in H.
  - inversion H. subst. exact H0.
  - inv_bind H. inv_bind H. inversion H. subst.
    eapply IH; [|intros z w3 y w4 Hz; apply Hstep; right; exact Hz | exact H2].
    eapply Hstep; [left | exact H0 | exact H1].
Qed.

Lemma length_chars s : length (list_ascii_of_string s) = String.length s.
Proof. induction s as [|c s IH]; simpl; [reflexivity | rewrite IH; reflexivity]. Qed.

Lemma py_iter_length t items :
  py_iter t = Ok items -> raw_length t = Ok (length items).
Proof.
  destruct t as [s|l|z]; simpl; intros H; inversion H; subst.
  - rewrite length_fmap, length_chars. reflexivity.
  - rewrite length_fmap. reflexivity.
Qed.

Lemma appendTrialJobs_replicate self fileName items jobList :
  appendTrialJobs self fileName items jobList =
  jobList ++ replicate (length items)
    {| job_filename := fileName;
       job_resourcePrefix := RESOURCE_DIRECTORY_NAME;
       job_path := trialPath (pathInfo (config self));
       job_executable := executable (pathInfo (config self));
       job_length := trialLength (trialProperties self);
       job_terrain := [[0; 0; 0; 0]] |}.
Proof. unfold appendTrialJobs. apply fold_left_append_const. Qed.

Section Run.
Context `{E : Externals}.

Lemma writeMemberToFile_submitted self member w f w' :
  writeMemberToFile self member w = Ok (f, w') -> submitted w' = submitted w.
Proof.
  intros H. unfold writeMemberToFile in H.
  inv_bind H. apply lift_Ok in H0 as [_ ->].
  inv_bind H. apply lift_Ok in H0 as [_ ->].
  inv_bind H. inversion H0. inversion H. subst. reflexivity.
Qed.

Lemma dispatchMembers_Ok self activeGeneration jobList w jobList' w' :
  dispatchMembers self activeGeneration jobList w = Ok (jobList', w') ->
  submitted w' = submitted w /\
  exists new,
    jobList' = jobList ++ new /\
    Forall (fun j => job_terrain j = [[0; 0; 0; 0]]) new /\
    forall n, raw_length (terrains (trialProperties self)) = Ok n ->
              length new = (length (members activeGeneration) * n)%nat.
Proof.
  intros H. unfold dispatchMembers, getMembers in H.
  apply (forFold_counting
           (fun k jl w1 =>
              submitted w1 = submitted w /\
              exists new,
                jl = jobList ++ new /\
                Forall (fun j => job_terrain j = [[0; 0; 0; 0]]) new /\
                forall n, raw_length (terrains (trialProperties self)) = Ok n ->
                          length new = (k * n)%nat) _ _ _ _ _ _) in H.
  - exact H.
  - split; [reflexivity|]. exists []. rewrite app_nil_r.
    split; [reflexivity|]. split; [constructor | reflexivity].
  - intros k jl member w1 jl' w1' _ (Hsub & new & -> & Hflat & Hlen) Hbody.
    inv_bind Hbody. apply writeMemberToFile_submitted in Hbody0.
    inv_bind Hbody. apply lift_Ok in Hbody1 as [Hitems ->].
    inversion Hbody. subst. clear Hbody.
    split; [congruence|].
    rewrite appendTrialJobs_replicate, <- app_assoc. eexists. split; [reflexivity|].
    split.
    + apply Forall_app. split; [exact Hflat|]. apply Forall_replicate. reflexivity.
    + intros n Hn. apply py_iter_length in Hitems. rewrite Hitems in Hn.
      inversion Hn. subst n. rewrite length_app, length_replicate, (Hlen _ Hitems). lia.
Qed.

(** The batches of a run of the loop: one per iteration, of flat jobs
    only. *)
Lemma generationLoop_batches self gen genNums :
  (forall p w1 g w2, gen p w1 = Ok (g, w2) -> submitted w2 = submitted w1) ->
  forall previousGeneration jobList w gens w',
    Forall (fun j => job_terrain j = [[0; 0; 0; 0]]) jobList ->
    generationLoop self gen genNums previousGeneration jobList w = Ok (gens, w') ->
    exists batches,
      submitted w' = submitted w ++ batches /\
      length batches = length genNums /\
      length gens = length genNums /\
      Forall (fun b => Forall (fun j => job_terrain j = [[0; 0; 0; 0]]) b.1) batches.
Proof.
  intros Hgen. induction genNums as [|genNum rest IH];
    intros previousGeneration jobList w gens w' Hflat H; simpl in H.
  - inversion H. subst. exists []. rewrite app_nil_r.
    repeat split; try reflexivity. constructor.
  - inv_bind H. apply Hgen in H0. inv_bind H.
    apply dispatchMembers_Ok in H1 as (Hsub & new & -> & Hnew & Hlen).
    inv_bind H. inversion H1. subst. clear H1.
    inv_bind H. inversion H. subst. clear H.
    assert (Hflat' : Forall (fun j => job_terrain j = [[0; 0; 0; 0]]) (jobList ++ new))
      by (apply Forall_app; split; assumption).
    destruct (IH _ _ _ _ _ Hflat' H1) as (batches & Hb & Hlb & Hlg & Hall).
    exists ((jobList ++ new, numProcesses self) :: batches).
    split; [rewrite Hb; simpl; rewrite Hsub, H0, <- app_assoc; reflexivity|].
    split; [simpl; congruence|]. split; [simpl; congruence|].
    constructor; assumption.
Qed.

Lemma chooseComponents_submitted cps m w m' w' :
  chooseComponents cps m w = Ok (m', w') -> submitted w' = submitted w.
Proof.
  intros H. unfold chooseComponents in H.
  apply (forFold_invariant (fun _ w1 => submitted w1 = submitted w) _ _ _ _ _ _ eq_refl)
    in H; [exact H|].
  intros b kv w1 b' w1' _ Hsub Hbody. inv_bind Hbody.
  apply random_choice_Ok in Hbody0 as [_ ->]. inversion Hbody. subst. exact Hsub.
Qed.

Lemma createNewGeneration_submitted self cps genID w g w' :
  createNewGeneration self cps genID w = Ok (g, w') -> submitted w' = submitted w.
Proof.
  intros H. unfold createNewGeneration in H.
  apply (forFold_invariant (fun _ w1 => submitted w1 = submitted w) _ _ _ _ _ _ eq_refl)
    in H; [exact H|].
  intros b id w1 b' w1' _ Hsub Hbody. inv_bind Hbody.
  apply chooseComponents_submitted in Hbody0. inversion Hbody. subst. congruence.
Qed.

Lemma postProcess_submitted self componentName genID component w component' w' :
  postProcess self componentName genID component w = Ok (component', w') ->
  submitted w' = submitted w.
Proof.
  intros H. unfold postProcess in H.
  inv_bind H. apply lift_Ok in H0 as [_ ->].
  inv_bind H. apply lift_Ok in H0 as [_ ->].
  destruct (params component).
  - inversion H. reflexivity.
  - inv_bind H. inversion H0. inversion H. subst. reflexivity.
Qed.

Lemma generateComponentPopulation_submitted self componentName components
    previousGeneration genID w population w' :
  generateComponentPopulation self componentName components previousGeneration genID w
    = Ok (population, w') ->
  submitted w' = submitted w.
Proof.
  intros H. unfold generateComponentPopulation in H.
  inv_bind H. apply lift_Ok in H0 as [_ ->]. inv_bind H.
  apply (forMap_invariant (fun w1 => submitted w1 = submitted w)) in H; [exact H| |].
  - destruct (dispatchLearning _ _ _ _ _ _) as [[population0 pos]|e]; [|discriminate].
    inversion H0. reflexivity.
  - intros c w1 c' w2 _ Hsub Hc. apply postProcess_submitted in Hc. congruence.
Qed.

Lemma generateComponentPopulations_submitted self componentDictionary
    previousGeneration genID w populations w' :
  generateComponentPopulations self componentDictionary previousGeneration genID w
    = Ok (populations, w') ->
  submitted w' = submitted w.
Proof.
  intros H. unfold generateComponentPopulations in H.
  apply (forFold_invariant (fun _ w1 => submitted w1 = submitted w) _ _ _ _ _ _ eq_refl)
    in H; [exact H|].
  intros b kv w1 b' w1' _ Hsub Hbody. inv_bind Hbody.
  apply generateComponentPopulation_submitted in Hbody0. inversion Hbody. subst. congruence.
Qed.

Lemma generationGenerator_Ok self previousGeneration w g w' :
  generationGenerator self previousGeneration w = Ok (g, w') ->
  ID g = getNewGenerationID (Some previousGeneration) /\
  length (members g) = Z.to_nat (generationSize (trialProps (config self))) /\
  submitted w' = submitted w.
Proof.
  intros H. unfold generationGenerator in H. inv_bind H.
  apply generateComponentPopulations_submitted in H0.
  pose proof (createNewGeneration_submitted _ _ _ _ _ _ H) as Hsub.
  apply createNewGeneration_Ok in H as (Hid & Hlen & _).
  split; [exact Hid|]. split; [exact Hlen | congruence].
Qed.

(** The identifiers along a run of the loop with [generationGenerator]. *)
Lemma generationLoop_IDs self genNums :
  forall previousGeneration jobList w gens w',
    generationLoop self (generationGenerator self) genNums previousGeneration jobList w
      = Ok (gens, w') ->
    Forall (fun g => length (members g)
                     = Z.to_nat (generationSize (trialProps (config self)))) gens /\
    (forall g, gens !! 0%nat = Some g -> ID g = getNewGenerationID (Some previousGeneration)) /\
    (Generation_truth previousGeneration = true ->
     0 < generationSize (trialProps (config self)) ->
     (forall g, members g <> [] -> Generation_truth g = true) ->
     forall k g, gens !! k = Some g -> ID g = ID previousGeneration + 1 + Z.of_nat k).
Proof.
  induction genNums as [|genNum rest IH];
    intros previousGeneration jobList w gens w' H; simpl in H.
  - inversion H. subst. split; [constructor|].
    split; [intros g Hg; inversion Hg | intros _ _ _ k g Hg; inversion Hg].
  - inv_bind H. apply generationGenerator_Ok in H0 as (Hid & Hlen & _).
    inv_bind H. inv_bind H. inv_bind H. inversion H. subst. clear H.
    destruct (IH _ _ _ _ _ H2) as (Hsizes & _ & Hlater).
    split; [constructor; assumption|]. split.
    + intros g Hg. inversion Hg. subst. exact Hid.
    + intros Htrue Hpos Hfull k g Hg. destruct k as [|k]; simpl in Hg.
      * inversion Hg. subst. rewrite Hid. simpl. rewrite Htrue. lia.
      * assert (Ha : Generation_truth a = true).
        { apply Hfull. intros Hnil. rewrite Hnil in Hlen. simpl in Hlen. lia. }
        rewrite (Hlater Ha Hpos Hfull k g Hg), Hid. simpl. rewrite Htrue. lia.
Qed.

Lemma importSeedGeneration_missing self w :
  isdir (disk w) (seedDirectory (pathInfo (config self))) = false ->
  importSeedGeneration self w =
  Ok (Generation_new (-1), set_console (fun out => out ++ [seed_warning]) w).
Proof. intros H. unfold importSeedGeneration. rewrite H. reflexivity. Qed.

Lemma importSeedGeneration_loaded self w (content : string -> gmap string mvalue) :
  isdir (disk w) (seedDirectory (pathInfo (config self))) = true ->
  (forall file, file ∈ listdir (disk w) (seedDirectory (pathInfo (config self))) ->
      json_load (disk w) (abspath (seedDirectory (pathInfo (config self))) +:+ "/" +:+ file)
      = Ok (content file)) ->
  importSeedGeneration self w =
  Ok ({| ID := -1;
         members := (fun file => Member_of (content file))
                      <$> listdir (disk w) (seedDirectory (pathInfo (config self))) |}, w).
Proof.
  intros Hdir Hload. unfold importSeedGeneration. rewrite Hdir.
  assert (Hgo : forall l acc,
             (forall file, file ∈ l ->
                json_load (disk w) (abspath (seedDirectory (pathInfo (config self)))
                                    +:+ "/" +:+ file) = Ok (content file)) ->
             forFold (fun previousGeneration file =>
                        seedInput <- (fun w' => lift (json_load (disk w')
                           (abspath (seedDirectory (pathInfo (config self)))
                            +:+ "/" +:+ file)) w') ;;
                        ret (addMember previousGeneration (Member_of seedInput)))
                     acc l w =
             Ok ({| ID := ID acc;
                    members := members acc ++ ((fun file => Member_of (content file)) <$> l) |},
                 w)).
  { induction l as [|file l IH]; intros acc Hl; simpl.
    - rewrite app_nil_r. destruct acc. reflexivity.
    - unfold bind at 1. unfold bind at 1. rewrite (Hl file) by left. simpl.
      rewrite IH by (intros f Hf; apply Hl; right; exact Hf).
      simpl. rewrite <- app_assoc. reflexivity. }
  apply (Hgo _ (Generation_new (-1)) Hload).
Qed.

Lemma importSeedGeneration_Ok self w seed w' :
  importSeedGeneration self w = Ok (seed, w') ->
  ID seed = -1 /\ submitted w' = submitted w.
Proof.
  unfold importSeedGeneration.
  destruct (isdir (disk w) (seedDirectory (pathInfo (config self)))).
  - intros H.
    apply (forFold_invariant (fun g w1 => ID g = -1 /\ submitted w1 = submitted w)) in H;
      [exact H | split; reflexivity |].
    intros b file w1 b' w1' _ [Hid Hsub] Hbody. inv_bind Hbody.
    apply lift_Ok in Hbody0 as [_ ->]. inversion Hbody. subst. split; [exact Hid | exact Hsub].
  - intros H. inversion H. subst. split; reflexivity.
Qed.

Lemma generationLoop_with_terrains t self gen genNums :
  forall previousGeneration jobList w,
    generationLoop (with_terrains t self) gen genNums previousGeneration jobList w =
    generationLoop self gen genNums previousGeneration jobList w.
Proof.
  induction genNums as [|genNum rest IH]; intros previousGeneration jobList w; simpl.
  - reflexivity.
  - unfold bind. destruct (gen previousGeneration w) as [[g w1]|e]; [|reflexivity].
    change (dispatchMembers (with_terrains t self) g jobList w1)
      with (dispatchMembers self g jobList w1).
    destruct (dispatchMembers self g jobList w1) as [[jobList' w2]|e]; [|reflexivity].
    simpl. rewrite IH. reflexivity.
Qed.

(** C3: [getNewGenerationID] returns the previous identifier plus one for
    a previous generation that counts as true, and -1 for one that counts
    as false or is absent. In a run whose seed generation (identifier -1)
    counts as true, with at least one member per generation and non-empty
    generations counting as true, the generations produced are numbered
    0, 1, 2, ...; in a run whose seed counts as false the first generation
    produced is numbered -1. *)
Theorem generation_ID_sequence :
  (forall g, Generation_truth g = true -> getNewGenerationID (Some g) = ID g + 1) /\
  (forall previous, truth previous = false -> getNewGenerationID previous = -1) /\
  (forall self w gens w',
      beginTrial self w = Ok (gens, w') ->
      exists seed w0,
        importSeedGeneration self w = Ok (seed, w0) /\
        ID seed = -1 /\
        (Generation_truth seed = true ->
         0 < generationSize (trialProps (config self)) ->
         (forall g, members g <> [] -> Generation_truth g = true) ->
         forall k g, gens !! k = Some g -> ID g = Z.of_nat k) /\
        (Generation_truth seed = false ->
         forall g, gens !! 0%nat = Some g -> ID g = -1)).
Proof.
  split; [intros g Hg; simpl; rewrite Hg; reflexivity|].
  split.
  - intros [g|] Hp; simpl in *; [rewrite Hp|]; reflexivity.
  - intros self w gens w' H. unfold beginTrial, beginTrialMaster in H. inv_bind H.
    exists a, w0. split; [exact H0|].
    apply importSeedGeneration_Ok in H0 as [Hid _]. split; [exact Hid|].
    apply generationLoop_IDs in H as (_ & Hfirst & Hseq). split.
    + intros Ht Hpos Hfull k g Hg. rewrite (Hseq Ht Hpos Hfull k g Hg), Hid. lia.
    + intros Hf g Hg. rewrite (Hfirst g Hg). simpl. rewrite Hf. reflexivity.
Qed.

(** C8: when the seed path is not a directory, [importSeedGeneration]
    returns the empty generation -1 and prints a warning, and the run goes
    on from that empty generation; when it is a directory whose files all
    load as JSON, the generation -1 returned holds one member per file, in
    listing order, each wrapping the loaded record. *)
Theorem importSeedGeneration_cases self w :
  (isdir (disk w) (seedDirectory (pathInfo (config self))) = false ->
     importSeedGeneration self w =
       Ok (Generation_new (-1), set_console (fun out => out ++ [seed_warning]) w) /\
     forall gen,
       beginTrialMaster self gen w =
       generationLoop self gen (range (generationCount (trialProperties self)))
         (Generation_new (-1)) [] (set_console (fun out => out ++ [seed_warning]) w)) /\
  (isdir (disk w) (seedDirectory (pathInfo (config self))) = true ->
     forall content : string -> gmap string mvalue,
       (forall file, file ∈ listdir (disk w) (seedDirectory (pathInfo (config self))) ->
           json_load (disk w)
             (abspath (seedDirectory (pathInfo (config self))) +:+ "/" +:+ file)
           = Ok (content file)) ->
       importSeedGeneration self w =
         Ok ({| ID := -1;
                members := (fun file => Member_of (content file))
                             <$> listdir (disk w) (seedDirectory (pathInfo (config self))) |},
             w)).
Proof.
  split.
  - intros Hdir. split; [apply importSeedGeneration_missing; exact Hdir|].
    intros gen. unfold beginTrialMaster, bind.
    rewrite (importSeedGeneration_missing _ _ Hdir). reflexivity.
  - intros Hdir content Hload. apply importSeedGeneration_loaded; assumption.
Qed.

(** C9: [_setup] assigns [self.terrains] exactly when the configured value
    is the string "flat"; a run does not depend on that attribute; the
    loop over the members appends, per member, as many jobs as the
    configured [terrains] value is long, and four when it is the string
    "flat". *)
Theorem dispatcher_iterates_configured_terrains :
  (forall cfg nproc,
      (terrains (trialProps cfg) = TString "flat" ->
       self_terrains (_setup cfg nproc) = Some [[[0; 0; 0; 0]]]) /\
      (terrains (trialProps cfg) <> TString "flat" ->
       self_terrains (_setup cfg nproc) = None)) /\
  (forall self t w, beginTrial (with_terrains t self) w = beginTrial self w) /\
  (forall self activeGeneration jobList w jobList' w' n,
      dispatchMembers self activeGeneration jobList w = Ok (jobList', w') ->
      raw_length (terrains (trialProperties self)) = Ok n ->
      length jobList' = (length jobList + length (members activeGeneration) * n)%nat) /\
  (forall cfg nproc activeGeneration jobList w jobList' w',
      terrains (trialProps cfg) = TString "flat" ->
      dispatchMembers (_setup cfg nproc) activeGeneration jobList w = Ok (jobList', w') ->
      length jobList' = (length jobList + length (members activeGeneration) * 4)%nat).
Proof.
  assert (Hjobs : forall self activeGeneration jobList w jobList' w' n,
      dispatchMembers self activeGeneration jobList w = Ok (jobList', w') ->
      raw_length (terrains (trialProperties self)) = Ok n ->
      length jobList' = (length jobList + length (members activeGeneration) * n)%nat).
  { intros self activeGeneration jobList w jobList' w' n H Hn.
    apply dispatchMembers_Ok in H as (_ & new & -> & _ & Hlen).
    rewrite length_app, (Hlen n Hn). reflexivity. }
  split.
  - intros cfg nproc. unfold _setup. simpl. split.
    + intros ->. reflexivity.
    + intros Hne. destruct (terrains (trialProps cfg)) as [s| |]; simpl; try reflexivity.
      rewrite bool_decide_eq_false_2; [reflexivity | congruence].
  - split.
    + intros self t w. unfold beginTrial, beginTrialMaster, bind.
      change (importSeedGeneration (with_terrains t self) w)
        with (importSeedGeneration self w).
      destruct (importSeedGeneration self w) as [[seed w0]|e]; [|reflexivity].
      rewrite generationLoop_with_terrains. reflexivity.
    + split; [exact Hjobs|].
      intros cfg nproc activeGeneration jobList w jobList' w' Hflat H.
      apply (Hjobs _ _ _ _ _ _ 4%nat H). simpl. rewrite Hflat. reflexivity.
Qed.

End Run.

Lemma generation_ID_sequence_witness :
  @getNewGenerationID Fixtures.sized
    (Some {| ID := -1; members := [Member_of Fixtures.seed_member] |}) = -1 + 1 /\
  @getNewGenerationID Fixtures.sized (Some (Generation_new (-1))) = -1 /\
  @getNewGenerationID Fixtures.sized None = -1 /\
  (exists gens w',
     @beginTrial Fixtures.sized (@_setup Fixtures.sized (Fixtures.cfg 3 2 (TString "flat")) 4)
       (Fixtures.world Fixtures.seed_disk) = Ok (gens, w') /\
     length gens = 3%nat /\
     forall k g, gens !! k = Some g -> ID g = Z.of_nat k) /\
  (exists gens w',
     @beginTrial Fixtures.sized (@_setup Fixtures.sized (Fixtures.cfg 3 2 (TString "flat")) 4)
       (Fixtures.world Fixtures.no_disk) = Ok (gens, w') /\
     forall g, gens !! 0%nat = Some g -> ID g = -1).
Proof.
  split; [apply (proj1 (@generation_ID_sequence Fixtures.sized)); reflexivity|].
  split; [apply (proj1 (proj2 (@generation_ID_sequence Fixtures.sized))); reflexivity|].
  split; [apply (proj1 (proj2 (@generation_ID_sequence Fixtures.sized))); reflexivity|].
  split.
  - destruct (@beginTrial Fixtures.sized
                (@_setup Fixtures.sized (Fixtures.cfg 3 2 (TString "flat")) 4)
                (Fixtures.world Fixtures.seed_disk)) as [[gens w']|e] eqn:Hrun;
      [|vm_compute in Hrun; discriminate].
    exists gens, w'. split; [reflexivity|].
    split; [vm_compute in Hrun; inversion Hrun; reflexivity|].
    destruct (proj2 (proj2 (@generation_ID_sequence Fixtures.sized)) _ _ _ _ Hrun)
      as (seed & w0 & Himport & _ & Hseq & _).
    apply Hseq.
    + vm_compute in Himport. inversion Himport. reflexivity.
    + simpl. lia.
    + intros g Hg. simpl. destruct (members g); [congruence | reflexivity].
  - destruct (@beginTrial Fixtures.sized
                (@_setup Fixtures.sized (Fixtures.cfg 3 2 (TString "flat")) 4)
                (Fixtures.world Fixtures.no_disk)) as [[gens w']|e] eqn:Hrun;
      [|vm_compute in Hrun; discriminate].
    exists gens, w'. split; [reflexivity|].
    destruct (proj2 (proj2 (@generation_ID_sequence Fixtures.sized)) _ _ _ _ Hrun)
      as (seed & w0 & Himport & _ & _ & Hfirst).
    apply Hfirst. vm_compute in Himport. inversion Himport. reflexivity.
Defined.

Lemma importSeedGeneration_cases_witness :
  @importSeedGeneration Fixtures.sized
    (@_setup Fixtures.sized (Fixtures.cfg 2 1 (TList [Fixtures.flat])) 4)
    (Fixtures.world Fixtures.no_disk)
  = Ok (Generation_new (-1),
        set_console (fun out => out ++ [seed_warning]) (Fixtures.world Fixtures.no_disk)) /\
  @importSeedGeneration Fixtures.sized
    (@_setup Fixtures.sized (Fixtures.cfg 2 1 (TList [Fixtures.flat])) 4)
    (Fixtures.world Fixtures.seed_disk)
  = Ok ({| ID := -1; members := [Member_of Fixtures.seed_member] |},
        Fixtures.world Fixtures.seed_disk).
Proof.
  split.
  - apply (proj1 (@importSeedGeneration_cases Fixtures.sized
                    (@_setup Fixtures.sized (Fixtures.cfg 2 1 (TList [Fixtures.flat])) 4)
                    (Fixtures.world Fixtures.no_disk))).
    reflexivity.
  - apply (proj2 (@importSeedGeneration_cases Fixtures.sized
                    (@_setup Fixtures.sized (Fixtures.cfg 2 1 (TList [Fixtures.flat])) 4)
                    (Fixtures.world Fixtures.seed_disk))
             eq_refl (fun _ => Fixtures.seed_member)).
    intros file Hin. simpl in Hin. apply list_elem_of_singleton in Hin. subst file.
    reflexivity.
Defined.

Lemma dispatcher_iterates_configured_terrains_witness :
  self_terrains (@_setup Fixtures.sized (Fixtures.cfg 1 2 (TString "flat")) 4)
    = Some [[[0; 0; 0; 0]]] /\
  self_terrains (@_setup Fixtures.sized (Fixtures.cfg 1 2 (TList [Fixtures.flat])) 4) = None /\
  exists jobList' w',
    @dispatchMembers Fixtures.sized
      (@_setup Fixtures.sized (Fixtures.cfg 1 2 (TString "flat")) 4)
      (addMember (addMember (Generation_new 0) (Member_new 0 0)) (Member_new 1 0))
      [] (Fixtures.world Fixtures.no_disk) = Ok (jobList', w') /\
    length jobList' = (0 + 2 * 4)%nat.
Proof.
  split; [apply (proj1 (@dispatcher_iterates_configured_terrains Fixtures.sized));
          reflexivity|].
  split; [apply (proj1 (@dispatcher_iterates_configured_terrains Fixtures.sized));
          discriminate|].
  destruct (@dispatchMembers Fixtures.sized
              (@_setup Fixtures.sized (Fixtures.cfg 1 2 (TString "flat")) 4)
              (addMember (addMember (Generation_new 0) (Member_new 0 0)) (Member_new 1 0))
              [] (Fixtures.world Fixtures.no_disk)) as [[jobList' w']|e] eqn:Hrun;
    [|vm_compute in Hrun; discriminate].
  exists jobList', w'. split; [reflexivity|].
  apply (proj2 (proj2 (proj2 (@dispatcher_iterates_configured_terrains Fixtures.sized)))
           (Fixtures.cfg 1 2 (TString "flat")) 4 _ _ _ _ _ eq_refl Hrun).
Defined.

(** * Further properties of the two files *)

(** ** The Generation Assembler: footprint and member identity *)

Lemma set_rng_pos_same w : set_rng_pos (rng_pos w) w = w.
Proof. destruct w. reflexivity. Qed.

Lemma chooseComponents_world cps m w m' w' :
  chooseComponents cps m w = Ok (m', w') ->
  w' = set_rng_pos (rng_pos w + size cps) w.
Proof.
  intros H. unfold chooseComponents in H. rewrite <- length_map_to_list.
  apply (forFold_counting (fun n _ w1 => w1 = set_rng_pos (rng_pos w + n) w)
           _ _ _ _ _ _) in H; [exact H | |].
  - rewrite Nat.add_0_r. symmetry. apply set_rng_pos_same.
  - intros n b kv w1 b' w1' _ -> Hbody. inv_bind Hbody.
    apply random_choice_Ok in Hbody0 as [_ ->]. inversion Hbody. subst.
    unfold advance_rng. simpl. unfold set_rng_pos. simpl. f_equal. lia.
Qed.

Lemma chooseComponents_untouched cps m w m' w' key :
  chooseComponents cps m w = Ok (m', w') ->
  cps !! key = None ->
  components m' !! key = components m !! key.
Proof.
  intros H Hkey. unfold chooseComponents in H.
  apply (attach_list_Ok _ (NoDup_fst_map_to_list cps)) in H as [_ Hb].
  apply Hb. intros Hel. apply list_elem_of_fmap in Hel as ([k' pop] & Heq & Hel).
  simpl in Heq. subst k'. apply elem_of_map_to_list in Hel. congruence.
Qed.

Lemma lookup_range n k x : range n !! k = Some x -> x = Z.of_nat k.
Proof.
  unfold range. rewrite list_lookup_fmap. intros H.
  destruct (seq 0 (Z.to_nat n) !! k) as [y|] eqn:Hy; [|discriminate].
  apply lookup_seq in Hy as [-> _]. inversion H. reflexivity.
Qed.

(** X1: a call of [createNewGeneration] that returns has drawn one random
    number per member and component, generationSize times the number of
    components in all, and has changed nothing else of the world: no file,
    no console line, no batch. *)
Theorem createNewGeneration_draws self cps genID w g w' :
  createNewGeneration self cps genID w = Ok (g, w') ->
  w' = set_rng_pos
         (rng_pos w + Z.to_nat (generationSize (trialProps (config self))) * size cps) w.
Proof.
  intros H. unfold createNewGeneration in H. rewrite <- length_range.
  apply (forFold_counting (fun n _ w1 => w1 = set_rng_pos (rng_pos w + n * size cps) w)
           _ _ _ _ _ _) in H; [exact H | |].
  - simpl. rewrite Nat.add_0_r. symmetry. apply set_rng_pos_same.
  - intros n b id w1 b' w1' _ -> Hbody. inv_bind Hbody.
    apply chooseComponents_world in Hbody0. inversion Hbody. subst.
    unfold set_rng_pos. simpl. f_equal. lia.
Qed.

Lemma createNewGeneration_draws_witness :
  exists g w',
    createNewGeneration (@_setup Fixtures.sized (Fixtures.cfg 2 4 (TList [Fixtures.flat])) 1)
      Fixtures.populations 0 (Fixtures.world Fixtures.no_disk) = Ok (g, w') /\
    w' = set_rng_pos (0 + 4 * 2) (Fixtures.world Fixtures.no_disk).
Proof.
  destruct (createNewGeneration
              (@_setup Fixtures.sized (Fixtures.cfg 2 4 (TList [Fixtures.flat])) 1)
              Fixtures.populations 0 (Fixtures.world Fixtures.no_disk))
    as [[g w']|e] eqn:Hrun; [|vm_compute in Hrun; discriminate].
  exists g, w'. split; [reflexivity|].
  exact (createNewGeneration_draws _ _ _ _ _ _ Hrun).
Defined.

(** X2: in a generation returned by [createNewGeneration] the member at
    position k carries memberID k and the generation's identifier, unless
    a component of the mapping is itself named memberID or generationID,
    in which case that key holds the component's candidate instead. *)
Theorem createNewGeneration_identity self cps genID w g w' :
  createNewGeneration self cps genID w = Ok (g, w') ->
  forall k m, members g !! k = Some m ->
    (cps !! "memberID" = None -> components m !! "memberID" = Some (MInt (Z.of_nat k))) /\
    (cps !! "generationID" = None -> components m !! "generationID" = Some (MInt genID)) /\
    (forall key population, (key = "memberID" \/ key = "generationID") ->
       cps !! key = Some population ->
       exists c, c ∈ population /\ components m !! key = Some (MComponent c)).
Proof.
  intros H. unfold createNewGeneration in H.
  apply (forFold_counting
           (fun n g _ =>
              length (members g) = n /\
              forall k m, members g !! k = Some m ->
                (cps !! "memberID" = None ->
                 components m !! "memberID" = Some (MInt (Z.of_nat k))) /\
                (cps !! "generationID" = None ->
                 components m !! "generationID" = Some (MInt genID)) /\
                (forall key population, (key = "memberID" \/ key = "generationID") ->
                   cps !! key = Some population ->
                   exists c, c ∈ population /\ components m !! key = Some (MComponent c)))
           _ _ _ _ _ _) in H; [exact (proj2 H) | |].
  - split; [reflexivity|]. intros k m Hk. inversion Hk.
  - intros n b id w1 b' w1' Hid [Hlen Hall] Hbody.
    apply lookup_range in Hid. subst id.
    inv_bind Hbody. inversion Hbody. subst b' w1'. clear Hbody. simpl.
    split; [rewrite length_app; simpl; lia|].
    intros k m Hk. apply lookup_app_Some in Hk as [Hk|[Hge Hk]]; [apply Hall; exact Hk|].
    rewrite Hlen in Hk. destruct (k - n)%nat as [|d] eqn:Hd; [|inversion Hk].
    simpl in Hk. inversion Hk. subst m. assert (k = n) by lia. subst k.
    split; [|split].
    + intros Hnone. rewrite (chooseComponents_untouched _ _ _ _ _ _ Hbody0 Hnone).
      reflexivity.
    + intros Hnone. rewrite (chooseComponents_untouched _ _ _ _ _ _ Hbody0 Hnone).
      reflexivity.
    + intros key population _ Hpop.
      apply chooseComponents_Ok in Hbody0 as [Ha _]. apply Ha. exact Hpop.
Qed.

Lemma createNewGeneration_identity_witness :
  exists g w' m,
    createNewGeneration (@_setup Fixtures.sized (Fixtures.cfg 2 4 (TList [Fixtures.flat])) 1)
      Fixtures.populations 7 (Fixtures.world Fixtures.no_disk) = Ok (g, w') /\
    members g !! 3%nat = Some m /\
    components m !! "memberID" = Some (MInt 3) /\
    components m !! "generationID" = Some (MInt 7).
Proof.
  destruct (createNewGeneration
              (@_setup Fixtures.sized (Fixtures.cfg 2 4 (TList [Fixtures.flat])) 1)
              Fixtures.populations 7 (Fixtures.world Fixtures.no_disk))
    as [[g w']|e] eqn:Hrun; [|vm_compute in Hrun; discriminate].
  pose proof Hrun as Hvalue. vm_compute in Hvalue. injection Hvalue as Hg _.
  assert (Hm : exists m, members g !! 3%nat = Some m)
    by (rewrite <- Hg; eexists; reflexivity).
  destruct Hm as [m Hm].
  exists g, w', m. split; [reflexivity|]. split; [exact Hm|].
  destruct (createNewGeneration_identity _ _ _ _ _ _ Hrun 3%nat m Hm) as (Hmid & Hgid & _).
  split; [apply Hmid; reflexivity | apply Hgid; reflexivity].
Defined.

(** ** The Artifact Store: file names *)

Lemma append_sep_inj sep (a a' r r' : string) :
  sep ∉ list_ascii_of_string a -> sep ∉ list_ascii_of_string a' ->
  a +:+ String sep r = a' +:+ String sep r' -> a = a' /\ r = r'.
Proof.
  revert a'. induction a as [|c a IH]; intros [|c' a'] Ha Ha' Heq.
  - inversion Heq. auto.
  - rewrite append_cons in Heq. inversion Heq. subst c'.
    exfalso. apply Ha'. simpl. left.
  - rewrite append_cons in Heq. inversion Heq. subst c.
    exfalso. apply Ha. simpl. left.
  - rewrite !append_cons in Heq. inversion Heq. subst c'.
    simpl in Ha, Ha'. apply not_elem_of_cons in Ha as [_ Ha].
    apply not_elem_of_cons in Ha' as [_ Ha'].
    destruct (IH a' Ha Ha' H1) as [-> ->]. auto.
Qed.

Lemma str_int_chars z c :
  c ∈ list_ascii_of_string (str_int z) ->
  c <> "_"%char /\ c <> "."%char.
Proof.
  unfold str_int.
  assert (He : forall d, c ∈ list_ascii_of_string (NilEmpty.string_of_uint d) ->
                         c <> "_"%char /\ c <> "."%char).
  { induction d as [|d IH|d IH|d IH|d IH|d IH|d IH|d IH|d IH|d IH|d IH]; simpl; intros Hin;
      [inversion Hin | apply elem_of_cons in Hin as [->|Hin]; [split; discriminate | auto] ..]. }
  assert (Hu : forall d, c ∈ list_ascii_of_string (NilZero.string_of_uint d) ->
                         c <> "_"%char /\ c <> "."%char).
  { intros d. unfold NilZero.string_of_uint. destruct d; try apply He.
    simpl. intros Hin. apply elem_of_cons in Hin as [->|Hin];
      [split; discriminate | inversion Hin]. }
  destruct (Z.to_int z) as [d|d]; simpl; [apply Hu|].
  intros Hin. apply elem_of_cons in Hin as [->|Hin]; [split; discriminate | eauto].
Qed.

Lemma str_int_inj a b : str_int a = str_int b -> a = b.
Proof.
  unfold str_int. intros H.
  assert (Hi : Some (Z.to_int a) = Some (Z.to_int b))
    by (rewrite <- !int_of_string_to_int, H; reflexivity).
  inversion Hi as [Hz]. rewrite <- (DecimalZ.of_to a), <- (DecimalZ.of_to b), Hz.
  reflexivity.
Qed.

(** Names of the form prefix_a_b.suffix determine the two integers. *)
Lemma numbered_name_inj (prefix suffix : string) a b a' b' :
  prefix +:+ "_" +:+ str_int a +:+ "_" +:+ str_int b +:+ String "."%char suffix =
  prefix +:+ "_" +:+ str_int a' +:+ "_" +:+ str_int b' +:+ String "."%char suffix ->
  a = a' /\ b = b'.
Proof.
  intros H. apply (inj (String.append prefix)) in H.
  change ("_" +:+ ?x) with (String "_"%char x) in H.
  inversion H as [H1]. clear H.
  apply append_sep_inj in H1 as [Ha Hrest];
    [|intros Hin; apply str_int_chars in Hin; tauto ..].
  apply append_sep_inj in Hrest as [Hb _];
    [|intros Hin; apply str_int_chars in Hin; tauto ..].
  split; apply str_int_inj; assumption.
Qed.

Section Artifacts.
Context `{E : Externals}.

Lemma writeMemberToFile_Ok self member w f w' :
  writeMemberToFile self member w = Ok (f, w') ->
  exists g m,
    components member !! "generationID" = Some g /\
    components member !! "memberID" = Some m /\
    f = fileName (pathInfo (config self)) +:+ "_" +:+ str_mvalue g
        +:+ "_" +:+ str_mvalue m +:+ ".json" /\
    w' = set_files (insert (trialDirectory self +:+ "/" +:+ f)
                      (MemberJson (components member))) w.
Proof.
  intros H. unfold writeMemberToFile in H.
  inv_bind H. apply lift_Ok in H0 as [Hg ->].
  inv_bind H. apply lift_Ok in H0 as [Hm ->].
  inv_bind H. inversion H0. inversion H. subst. clear H H0.
  unfold getitem in Hg, Hm.
  destruct (components member !! "generationID") as [g|]; [|discriminate].
  destruct (components member !! "memberID") as [m|]; [|discriminate].
  inversion Hg. inversion Hm. subst. eexists _, _. repeat split; reflexivity.
Qed.

(** X3: two members with integer identifiers that [writeMemberToFile]
    writes under the same file name have the same generationID and the
    same memberID; members that differ in one of the two never overwrite
    each other's file. *)
Theorem writeMemberToFile_names_injective self member1 member2 w1 w2 f w1' w2'
    g1 m1 g2 m2 :
  components member1 !! "generationID" = Some (MInt g1) ->
  components member1 !! "memberID" = Some (MInt m1) ->
  components member2 !! "generationID" = Some (MInt g2) ->
  components member2 !! "memberID" = Some (MInt m2) ->
  writeMemberToFile self member1 w1 = Ok (f, w1') ->
  writeMemberToFile self member2 w2 = Ok (f, w2') ->
  g1 = g2 /\ m1 = m2.
Proof.
  intros Hg1 Hm1 Hg2 Hm2 H1 H2.
  apply writeMemberToFile_Ok in H1 as (gv1 & mv1 & Hgv1 & Hmv1 & Hf1 & _).
  apply writeMemberToFile_Ok in H2 as (gv2 & mv2 & Hgv2 & Hmv2 & Hf2 & _).
  rewrite Hg1 in Hgv1. rewrite Hm1 in Hmv1. rewrite Hg2 in Hgv2. rewrite Hm2 in Hmv2.
  inversion Hgv1. inversion Hmv1. inversion Hgv2. inversion Hmv2. subst gv1 mv1 gv2 mv2.
  rewrite Hf1 in Hf2. simpl in Hf2.
  apply (numbered_name_inj (fileName (pathInfo (config self))) "json"). exact Hf2.
Qed.

End Artifacts.

Lemma writeMemberToFile_names_injective_witness :
  exists f w1' w2',
    @writeMemberToFile Fixtures.sized
      (@_setup Fixtures.sized (Fixtures.cfg 2 4 (TList [Fixtures.flat])) 1)
      (Member_new 3 7) (Fixtures.world Fixtures.no_disk) = Ok (f, w1') /\
    @writeMemberToFile Fixtures.sized
      (@_setup Fixtures.sized (Fixtures.cfg 2 4 (TList [Fixtures.flat])) 1)
      (Member_new 3 7) (Fixtures.world Fixtures.seed_disk) = Ok (f, w2') /\
    f = "m_7_3.json" /\ (7 = 7 /\ 3 = 3).
Proof.
  eexists _, _, _. split; [vm_compute; reflexivity|]. split; [vm_compute; reflexivity|].
  split; [reflexivity|].
  eapply (@writeMemberToFile_names_injective Fixtures.sized
            (@_setup Fixtures.sized (Fixtures.cfg 2 4 (TList [Fixtures.flat])) 1)
            (Member_new 3 7) (Member_new 3 7)
            (Fixtures.world Fixtures.no_disk) (Fixtures.world Fixtures.seed_disk)
            "m_7_3.json" _ _ 7 3 7 3); try reflexivity; vm_compute; reflexivity.
Defined.

(** ** The Population Generator: errors, weight files, composition *)


Section Populations.
Context `{E : Externals}.

Lemma postProcess_cases self componentName genID component w spec :
  entries (config self) !! componentName = Some spec ->
  (populationID component = None ->
     postProcess self componentName genID component w = Raise (KeyError "populationID")) /\
  (forall i, populationID component = Some i ->
     (forall rows, params component = ParamList rows ->
        postProcess self componentName genID component w =
        Ok ({| params := ParamList rows; generationID := generationID component;
               populationID := Some i;
               paramID := Some (PopulationSize spec * genID + i);
               scores := Some [] |}, w)) /\
     (forall net, params component = ParamNet net ->
        postProcess self componentName genID component w =
        Ok ({| params := ParamNet
                 {| neuralParams := neuralParams net; numActions := numActions net;
                    numStates := numStates net; numHidden := numHidden net;
                    neuralFilename :=
                      Some (NEURAL_NET_DIRECTORY_NAME
                            +:+ baseFileName self componentName (generationID component) i) |};
               generationID := generationID component;
               populationID := Some i;
               paramID := Some (PopulationSize spec * genID + i);
               scores := Some [] |},
            set_files
              (insert (trialDirectory self +:+ "/" +:+ NEURAL_NET_DIRECTORY_NAME
                       +:+ baseFileName self componentName (generationID component) i)
                      (NNWText (writeToNNW_text (neuralParams net)))) w))).
Proof.
  intros Hspec. unfold postProcess, bind, lift, getitem. rewrite Hspec. split.
  - intros ->. reflexivity.
  - intros i Hi. rewrite Hi. split.
    + intros rows ->. reflexivity.
    + intros net ->. reflexivity.
Qed.





End Populations.


Section PopulationErrors.
Context `{E : Externals}.

Lemma forMap_postProcess_unnumbered self componentName genID spec (raw : list Candidate) :
  entries (config self) !! componentName = Some spec ->
  Exists (fun c => populationID c = None) raw ->
  forall w, forMap (postProcess self componentName genID) raw w
            = Raise (KeyError "populationID").
Proof.
  intros Hspec. induction raw as [|c raw IH]; intros Hex w.
  - inversion Hex.
  - simpl. unfold bind at 1.
    destruct (postProcess_cases self componentName genID c w spec Hspec) as [Hnone Hsome].
    destruct (populationID c) as [i|] eqn:Hi.
    + apply Exists_cons in Hex as [Hc|Hex]; [congruence|].
      destruct (Hsome i eq_refl) as [Hrows Hnet].
      destruct (params c) as [rows|net].
      * rewrite (Hrows rows eq_refl). unfold bind. rewrite (IH Hex). reflexivity.
      * rewrite (Hnet net eq_refl). unfold bind. rewrite (IH Hex). reflexivity.
    + rewrite (Hnone eq_refl). reflexivity.
Qed.

(** X5: [generateComponentPopulation] passes on what goes wrong: a
    component name missing from the dictionary raises [KeyError] with that
    name; an exception of the learning algorithm is raised unchanged; and
    when the algorithm returns a candidate without populationID, the
    post-processing raises [KeyError] on populationID. *)
Theorem generateComponentPopulation_errors self componentName components
    previousGeneration genID w :
  (components !! componentName = None ->
     generateComponentPopulation self componentName components previousGeneration genID w
       = Raise (KeyError componentName)) /\
  (forall spec e,
     components !! componentName = Some spec ->
     dispatchLearning componentName spec
       (createEmptyComponent componentName (neuralNetwork spec) genID)
       previousGeneration (rng_draws w) (rng_pos w) = Raise e ->
     generateComponentPopulation self componentName components previousGeneration genID w
       = Raise e) /\
  (forall spec spec' raw pos,
     components !! componentName = Some spec ->
     entries (config self) !! componentName = Some spec' ->
     dispatchLearning componentName spec
       (createEmptyComponent componentName (neuralNetwork spec) genID)
       previousGeneration (rng_draws w) (rng_pos w) = Ok (raw, pos) ->
     Exists (fun c => populationID c = None) raw ->
     generateComponentPopulation self componentName components previousGeneration genID w
       = Raise (KeyError "populationID")).
Proof.
  unfold generateComponentPopulation, bind, lift, getitem. split; [|split].
  - intros ->. reflexivity.
  - intros spec e -> ->. reflexivity.
  - intros spec spec' raw pos -> Hspec' -> Hex.
    apply (forMap_postProcess_unnumbered _ _ _ _ _ Hspec' Hex).
Qed.

End PopulationErrors.

Lemma generateComponentPopulation_errors_witness :
  @generateComponentPopulation Fixtures.sized
    (@_setup Fixtures.sized (Fixtures.cfg 2 4 (TList [Fixtures.flat])) 1)
    "wing" (entries (Fixtures.cfg 2 4 (TList [Fixtures.flat])))
    (Generation_new (-1)) 0 (Fixtures.world Fixtures.no_disk) = Raise (KeyError "wing") /\
  @generateComponentPopulation Fixtures.failing
    (@_setup Fixtures.failing (Fixtures.cfg 2 4 (TList [Fixtures.flat])) 1)
    "brain" (entries (Fixtures.cfg 2 4 (TList [Fixtures.flat])))
    (Generation_new (-1)) 0 (Fixtures.world Fixtures.no_disk)
    = Raise (MissingComponentError "brain") /\
  @generateComponentPopulation Fixtures.unnumbered
    (@_setup Fixtures.unnumbered (Fixtures.cfg 2 4 (TList [Fixtures.flat])) 1)
    "brain" (entries (Fixtures.cfg 2 4 (TList [Fixtures.flat])))
    (Generation_new (-1)) 0 (Fixtures.world Fixtures.no_disk)
    = Raise (KeyError "populationID").
Proof.
  split; [|split].
  - apply (proj1 (@generateComponentPopulation_errors Fixtures.sized _ _ _ _ _ _)).
    reflexivity.
  - apply (proj1 (proj2 (@generateComponentPopulation_errors Fixtures.failing _ _ _ _ _ _))
             Fixtures.brain); reflexivity.
  - eapply (proj2 (proj2 (@generateComponentPopulation_errors Fixtures.unnumbered _ _ _ _ _ _))
              Fixtures.brain Fixtures.brain); try reflexivity.
    apply Exists_cons_hd. reflexivity.
Defined.

Ltac bind_inv H x w1 Hx :=
  apply bind_Ok in H; destruct H as (x & w1 & Hx & H).

Section WeightFiles.
Context `{E : Externals}.

Lemma weight_path_inj self componentName g i g' i' :
  trialDirectory self +:+ "/" +:+ NEURAL_NET_DIRECTORY_NAME
    +:+ baseFileName self componentName g i =
  trialDirectory self +:+ "/" +:+ NEURAL_NET_DIRECTORY_NAME
    +:+ baseFileName self componentName g' i' ->
  g = g' /\ i = i'.
Proof.
  unfold baseFileName. intros H.
  apply (inj (String.append _)) in H. apply (inj (String.append _)) in H.
  apply (inj (String.append _)) in H. apply (inj (String.append _)) in H.
  apply (inj (String.append _)) in H. apply (inj (String.append _)) in H.
  apply (numbered_name_inj "" "nnw"). exact H.
Qed.

Lemma forMap_postProcess_files self componentName genID (raw : list Candidate) :
  forall w population w',
    forMap (postProcess self componentName genID) raw w = Ok (population, w') ->
    (forall p,
        (forall c net i, c ∈ population -> params c = ParamNet net ->
                         populationID c = Some i ->
           p <> trialDirectory self +:+ "/" +:+ NEURAL_NET_DIRECTORY_NAME
                +:+ baseFileName self componentName (generationID c) i) ->
        files w' !! p = files w !! p) /\
    (NoDup ((fun c => (generationID c, populationID c)) <$> population) ->
     forall c net, c ∈ population -> params c = ParamNet net ->
       exists i,
         populationID c = Some i /\
         files w' !! (trialDirectory self +:+ "/" +:+ NEURAL_NET_DIRECTORY_NAME
                      +:+ baseFileName self componentName (generationID c) i)
         = Some (NNWText (writeToNNW_text (neuralParams net)))).
Proof.
  induction raw as [|x raw IH]; intros w population w' H; simpl in H.
  - inversion H. subst. split; [reflexivity|].
    intros _ c net Hc. inversion Hc.
  - bind_inv H y w1 Hy. bind_inv H ys w2 Hys. unfold ret in H.
    injection H as <- <-.
    destruct (IH _ _ _ Hys) as [Hframe Hheld]. clear IH.
    pose proof (postProcess_Ok _ _ _ _ _ _ _ Hy) as (spec & i & Hspec & Hxi & _).
    destruct (postProcess_cases self componentName genID x w spec Hspec) as [_ Hsome].
    destruct (Hsome i Hxi) as [Hrows Hnet]. clear Hsome.
    destruct (params x) as [rows|net0] eqn:Hpx.
    + (* a list of lists: nothing is written *)
      rewrite (Hrows rows eq_refl) in Hy. injection Hy as <- <-.
      split.
      * intros p Hp. apply Hframe. intros c net j Hc. apply Hp. right. exact Hc.
      * intros Hnd c net Hc Hpc. simpl in Hnd. apply NoDup_cons in Hnd as [_ Hnd].
        apply elem_of_cons in Hc as [->|Hc]; [discriminate | eauto].
    + (* a neural dictionary: one file is written *)
      rewrite (Hnet net0 eq_refl) in Hy. injection Hy as <- <-.
      split.
      * intros p Hp. rewrite Hframe.
        -- simpl. apply lookup_insert_ne. symmetry.
           apply (Hp _ _ i (list_elem_of_here _ _) eq_refl eq_refl).
        -- intros c net j Hc. apply Hp. right. exact Hc.
      * intros Hnd c net Hc Hpc. simpl in Hnd. apply NoDup_cons in Hnd as [Hfresh Hnd].
        apply elem_of_cons in Hc as [->|Hc]; [|eauto].
        simpl in Hpc. inversion Hpc. subst net. clear Hpc. simpl.
        exists i. split; [reflexivity|].
        rewrite Hframe; [simpl; apply lookup_insert_eq|].
        intros c net j Hc Hpc Hj Heq. apply weight_path_inj in Heq as [Hg ->].
        apply Hfresh. apply list_elem_of_fmap. exists c. split; [|exact Hc].
        rewrite Hj, <- Hg. reflexivity.
Qed.

(** X6: after [generateComponentPopulation], when the candidates returned
    differ pairwise in (generationID, populationID), the file
    NeuralNet/<fileName>_<component>_<generationID>_<populationID>.nnw of
    every neural candidate, under the trial directory, holds the text
    [writeToNNW] writes for that candidate's parameters; every path that
    is not such a weight file is left as it was. *)
Theorem generateComponentPopulation_weight_files self componentName components
    previousGeneration genID w population w' :
  generateComponentPopulation self componentName components previousGeneration genID w
    = Ok (population, w') ->
  (NoDup ((fun c => (generationID c, populationID c)) <$> population) ->
   forall c net, c ∈ population -> params c = ParamNet net ->
     exists i,
       populationID c = Some i /\
       files w' !! (trialDirectory self +:+ "/" +:+ NEURAL_NET_DIRECTORY_NAME
                    +:+ baseFileName self componentName (generationID c) i)
       = Some (NNWText (writeToNNW_text (neuralParams net)))) /\
  (forall p,
      (forall c net i, c ∈ population -> params c = ParamNet net ->
                       populationID c = Some i ->
         p <> trialDirectory self +:+ "/" +:+ NEURAL_NET_DIRECTORY_NAME
              +:+ baseFileName self componentName (generationID c) i) ->
      files w' !! p = files w !! p).
Proof.
  intros H. unfold generateComponentPopulation in H.
  bind_inv H spec w0 Hs. apply lift_Ok in Hs as [_ ->]. bind_inv H raw w1 Hd.
  assert (Hw1 : files w1 = files w).
  { destruct (dispatchLearning _ _ _ _ _ _) as [[raw0 pos]|e]; [|discriminate].
    inversion Hd. reflexivity. }
  apply forMap_postProcess_files in H as [Hframe Hheld].
  split; [exact Hheld|]. intros p Hp. rewrite (Hframe p Hp), Hw1. reflexivity.
Qed.

End WeightFiles.

Lemma generateComponentPopulation_weight_files_witness :
  exists population w',
    @generateComponentPopulation Fixtures.sized
      (@_setup Fixtures.sized (Fixtures.cfg 2 4 (TList [Fixtures.flat])) 1)
      "brain" (entries (Fixtures.cfg 2 4 (TList [Fixtures.flat])))
      (Generation_new (-1)) 1 (Fixtures.world Fixtures.no_disk) = Ok (population, w') /\
    files w' !! "/../../../resources/src/trial//NeuralNet/m_brain_1_2.nnw"
      = Some (NNWText "None,None,None,None,None,None,None,None,None").
Proof.
  destruct (@generateComponentPopulation Fixtures.sized
              (@_setup Fixtures.sized (Fixtures.cfg 2 4 (TList [Fixtures.flat])) 1)
              "brain" (entries (Fixtures.cfg 2 4 (TList [Fixtures.flat])))
              (Generation_new (-1)) 1 (Fixtures.world Fixtures.no_disk))
    as [[population w']|e] eqn:Hrun; [|vm_compute in Hrun; discriminate].
  exists population, w'. split; [reflexivity|].
  pose proof Hrun as Hvalue. vm_compute in Hvalue. injection Hvalue as Hpop _.
  destruct (proj1 (@generateComponentPopulation_weight_files Fixtures.sized
                     _ _ _ _ _ _ _ _ Hrun)) with
    (c := {| params := ParamNet
               {| neuralParams := replicate 9 None; numActions := 1; numStates := 2;
                  numHidden := 2; neuralFilename := Some "NeuralNet/m_brain_1_2.nnw" |};
             generationID := 1; populationID := Some 2; paramID := Some 5;
             scores := Some [] |})
    (net := {| neuralParams := replicate 9 None; numActions := 1; numStates := 2;
               numHidden := 2; neuralFilename := Some "NeuralNet/m_brain_1_2.nnw" |})
    as (i & Hi & Hfile).
  - rewrite <- Hpop. simpl.
    repeat (apply NoDup_cons; split;
            [intros Hx; repeat (apply elem_of_cons in Hx as [Hx|Hx]; [discriminate|]);
             inversion Hx|]).
    apply NoDup_nil_2.
  - rewrite <- Hpop. right. right. left.
  - reflexivity.
  - inversion Hi. subst i. exact Hfile.
Defined.

(** ** The Seed Importer: a file that does not load *)

Section SeedErrors.
Context `{E : Externals}.

Lemma seed_loop_loaded self w (content : string -> gmap string mvalue) (l : list string) :
  forall acc,
    (forall file, file ∈ l ->
        json_load (disk w) (abspath (seedDirectory (pathInfo (config self))) +:+ "/" +:+ file)
        = Ok (content file)) ->
    forFold (fun previousGeneration file =>
               seedInput <- (fun w' => lift (json_load (disk w')
                  (abspath (seedDirectory (pathInfo (config self))) +:+ "/" +:+ file)) w') ;;
               ret (addMember previousGeneration (Member_of seedInput)))
            acc l w =
    Ok ({| ID := ID acc;
           members := members acc ++ ((fun file => Member_of (content file)) <$> l) |}, w).
Proof.
  induction l as [|file l IH]; intros acc Hl; simpl.
  - rewrite app_nil_r. destruct acc. reflexivity.
  - unfold bind at 1. unfold bind at 1. rewrite (Hl file) by left. simpl.
    rewrite IH by (intros f Hf; apply Hl; right; exact Hf).
    simpl. rewrite <- app_assoc. reflexivity.
Qed.

(** X7: when the seed path is a directory and a file of its listing does
    not load (it cannot be opened, or it is not JSON), with every file
    listed before it loading, [importSeedGeneration] raises that file's
    exception: no generation is returned and the files after it are not
    read. *)
Theorem importSeedGeneration_unreadable self w (content : string -> gmap string mvalue)
    loaded file rest e :
  isdir (disk w) (seedDirectory (pathInfo (config self))) = true ->
  listdir (disk w) (seedDirectory (pathInfo (config self))) = loaded ++ file :: rest ->
  (forall f, f ∈ loaded ->
      json_load (disk w) (abspath (seedDirectory (pathInfo (config self))) +:+ "/" +:+ f)
      = Ok (content f)) ->
  json_load (disk w) (abspath (seedDirectory (pathInfo (config self))) +:+ "/" +:+ file)
    = Raise e ->
  importSeedGeneration self w = Raise e.
Proof.
  intros Hdir Hlist Hloaded Hfile. unfold importSeedGeneration.
  rewrite Hdir, Hlist, forFold_app. unfold bind at 1.
  rewrite (seed_loop_loaded self w content loaded _ Hloaded).
  simpl. unfold bind at 1. unfold bind at 1. rewrite Hfile. reflexivity.
Qed.

End SeedErrors.

Lemma importSeedGeneration_unreadable_witness :
  @importSeedGeneration Fixtures.sized
    (@_setup Fixtures.sized (Fixtures.cfg 2 1 (TList [Fixtures.flat])) 4)
    (Fixtures.world Fixtures.broken_disk) = Raise ValueError.
Proof.
  apply (@importSeedGeneration_unreadable Fixtures.sized
           (@_setup Fixtures.sized (Fixtures.cfg 2 1 (TList [Fixtures.flat])) 4)
           (Fixtures.world Fixtures.broken_disk)
           (fun _ => Fixtures.seed_member) ["a.json"] "b.txt" ["c.json"] ValueError).
  - reflexivity.
  - reflexivity.
  - intros f Hf. apply list_elem_of_singleton in Hf. subst f. reflexivity.
  - reflexivity.
Defined.

(** ** The template candidate: counts below zero *)

(** X8: [createEmptyComponent] accepts any integers. A count that is
    negative acts as zero: the nested list has max(0, numberOfInstances)
    rows of max(0, numberOfOutputs) entries, the flat vector has
    max(0, (states + 1) * hidden + (hidden + 1) * outputs) entries; and the
    template carries no populationID, no paramID, no score list and no
    weight file name. *)
Theorem createEmptyComponent_clamped component neuralNet genID :
  populationID (createEmptyComponent component neuralNet genID) = None /\
  paramID (createEmptyComponent component neuralNet genID) = None /\
  scores (createEmptyComponent component neuralNet genID) = None /\
  (numberOfStates neuralNet = 0 ->
     exists rows,
       params (createEmptyComponent component neuralNet genID) = ParamList rows /\
       Z.of_nat (length rows) = Z.max 0 (numberOfInstances neuralNet) /\
       Forall (fun row => Z.of_nat (length row) = Z.max 0 (numberOfOutputs neuralNet)) rows) /\
  (numberOfStates neuralNet <> 0 ->
     exists net,
       params (createEmptyComponent component neuralNet genID) = ParamNet net /\
       Z.of_nat (length (neuralParams net)) =
         Z.max 0 ((numberOfStates neuralNet + 1) * numberOfHidden neuralNet
                  + (numberOfHidden neuralNet + 1) * numberOfOutputs neuralNet) /\
       neuralFilename net = None).
Proof.
  split; [reflexivity|]. split; [reflexivity|]. split; [reflexivity|]. split.
  - intros H0. unfold createEmptyComponent. simpl.
    rewrite bool_decide_eq_true_2 by exact H0. rewrite getNonNNParams_rows.
    eexists. split; [reflexivity|]. rewrite length_replicate. split; [lia|].
    apply Forall_replicate. rewrite length_replicate. lia.
  - intros Hne. unfold createEmptyComponent. simpl.
    rewrite bool_decide_eq_false_2 by exact Hne. unfold getNNParams.
    eexists. split; [reflexivity|]. simpl. rewrite length_replicate.
    split; [lia | reflexivity].
Qed.

(** ** [getPreviousComponentGeneration] *)

Lemma previous_components_fold component (l : list Member) :
  forall acc,
    (Forall (fun m => is_Some (components m !! component)) l ->
     exists values,
       fold_left (fun acc member =>
                    match acc with
                    | Ok previousComponentGeneration =>
                        match getitem (components member) component with
                        | Ok previousComponent =>
                            Ok (previousComponentGeneration ++ [previousComponent])
                        | Raise e => Raise e
                        end
                    | Raise e => Raise e
                    end) l (Ok acc) = Ok (acc ++ values) /\
       Forall2 (fun m v => components m !! component = Some v) l values) /\
    (Exists (fun m => components m !! component = None) l ->
     fold_left (fun acc member =>
                  match acc with
                  | Ok previousComponentGeneration =>
                      match getitem (components member) component with
                      | Ok previousComponent =>
                          Ok (previousComponentGeneration ++ [previousComponent])
                      | Raise e => Raise e
                      end
                  | Raise e => Raise e
                  end) l (Ok acc) = Raise (KeyError component)).
Proof.
  induction l as [|m l IH]; intros acc.
  - split.
    + intros _. exists []. rewrite app_nil_r. split; [reflexivity | constructor].
    + intros Hex. inversion Hex.
  - simpl. destruct (getitem (components m) component) as [v|e] eqn:Hget;
      unfold getitem in Hget;
      destruct (components m !! component) as [v'|] eqn:Hv; inversion Hget; subst.
    + destruct (IH (acc ++ [v])) as [Hall Hex]. split.
      * intros Hl. apply Forall_cons in Hl as [_ Hl].
        destruct (Hall Hl) as (values & Hfold & Hvalues).
        exists (v :: values). rewrite Hfold, <- app_assoc.
        split; [reflexivity | constructor; assumption].
      * intros Hl. apply Exists_cons in Hl as [Hm|Hl]; [congruence | auto].
    + split.
      * intros Hl. apply Forall_cons in Hl as [[v Hm] _]. congruence.
      * intros _. clear. induction l as [|m' l IHl]; [reflexivity | exact IHl].
Qed.

(** X9: [getPreviousComponentGeneration] returns, for a generation in
    which every member has the component, the members' values under that
    key, one per member and in member order (the empty list for a
    generation without members); as soon as one member lacks the key it
    raises [KeyError] with the component's name. *)
Theorem getPreviousComponentGeneration_cases component previousGeneration :
  (Forall (fun m => is_Some (components m !! component)) (members previousGeneration) ->
   exists values,
     getPreviousComponentGeneration component previousGeneration = Ok values /\
     Forall2 (fun m v => components m !! component = Some v)
             (members previousGeneration) values) /\
  (Exists (fun m => components m !! component = None) (members previousGeneration) ->
   getPreviousComponentGeneration component previousGeneration
     = Raise (KeyError component)).
Proof.
  unfold getPreviousComponentGeneration, getMembers.
  destruct (members previousGeneration) as [|m l] eqn:Hm.
  - split; [|intros Hex; inversion Hex].
    intros _. exists []. simpl. split; [reflexivity | constructor].
  - change (0 <? length (m :: l))%nat with true. cbv iota.
    destruct (previous_components_fold component (m :: l) []) as [Hall Hex].
    split; [|exact Hex].
    intros Hl. destruct (Hall Hl) as (values & Hfold & Hvalues).
    exists values. split; [exact Hfold | exact Hvalues].
Qed.

Lemma getPreviousComponentGeneration_cases_witness :
  (exists values,
     getPreviousComponentGeneration "memberID"
       {| ID := -1; members := [Member_of Fixtures.seed_member; Member_new 5 (-1)] |}
       = Ok values /\
     Forall2 (fun m v => components m !! "memberID" = Some v)
             [Member_of Fixtures.seed_member; Member_new 5 (-1)] values) /\
  getPreviousComponentGeneration "brain"
    {| ID := -1; members := [Member_of Fixtures.seed_member] |} = Raise (KeyError "brain").
Proof.
  split.
  - apply (proj1 (getPreviousComponentGeneration_cases "memberID"
                    {| ID := -1;
                       members := [Member_of Fixtures.seed_member; Member_new 5 (-1)] |})).
    repeat constructor; eexists; reflexivity.
  - apply (proj2 (getPreviousComponentGeneration_cases "brain"
                    {| ID := -1; members := [Member_of Fixtures.seed_member] |})).
    apply Exists_cons_hd. reflexivity.
Defined.

Lemma createEmptyComponent_clamped_witness :
  exists rows,
    params (createEmptyComponent "leg"
              {| numberOfStates := 0; numberOfInstances := -3;
                 numberOfOutputs := 2; numberOfHidden := 0 |} 0) = ParamList rows /\
    Z.of_nat (length rows) = Z.max 0 (-3).
Proof.
  destruct (createEmptyComponent_clamped "leg"
              {| numberOfStates := 0; numberOfInstances := -3;
                 numberOfOutputs := 2; numberOfHidden := 0 |} 0)
    as (_ & _ & _ & Hrows & _).
  destruct Hrows as (rows & Hp & Hlen & _); [reflexivity|].
  exists rows. split; [exact Hp | exact Hlen].
Defined.

(** ** The jobs the dispatcher builds *)

Section BuiltJobs.
Context `{E : Externals}.

(** The file name [writeMemberToFile] gives a member, and the jobs the
    loop over the terrains builds for that file: one per item, all the
    same. *)
Let named (self : JobMaster) (m : Member) (f : string) : Prop :=
  exists g i,
    components m !! "generationID" = Some g /\
    components m !! "memberID" = Some i /\
    f = fileName (pathInfo (config self)) +:+ "_" +:+ str_mvalue g
        +:+ "_" +:+ str_mvalue i +:+ ".json".

Let jobs_for (self : JobMaster) (items : list terrain_item) (f : string)
    : list EvolutionJob :=
  replicate (length items)
    {| job_filename := f;
       job_resourcePrefix := RESOURCE_DIRECTORY_NAME;
       job_path := trialPath (pathInfo (config self));
       job_executable := executable (pathInfo (config self));
       job_length := trialLength (trialProperties self);
       job_terrain := [[0; 0; 0; 0]] |}.

Lemma dispatchMembers_built self activeGeneration jobList w jobList' w' items :
  dispatchMembers self activeGeneration jobList w = Ok (jobList', w') ->
  py_iter (terrains (trialProperties self)) = Ok items ->
  exists names,
    Forall2 (named self) (members activeGeneration) names /\
    jobList' = jobList ++ concat (jobs_for self items <$> names).
Proof.
  intros H Hiter. unfold dispatchMembers, getMembers in H.
  apply (forFold_counting
           (fun k jl _ =>
              exists names,
                Forall2 (named self) (take k (members activeGeneration)) names /\
                jl = jobList ++ concat (jobs_for self items <$> names))
           _ _ _ _ _ _) in H.
  - rewrite firstn_all in H. exact H.
  - exists []. simpl. rewrite app_nil_r. split; [constructor | reflexivity].
  - intros k jl member w1 jl' w1' Hk (names & Hnames & ->) Hbody.
    bind_inv Hbody f w2 Hf.
    apply writeMemberToFile_Ok in Hf as (g & i & Hg & Hi & Hf & _).
    bind_inv Hbody items' w3 Hitems. apply lift_Ok in Hitems as [Hitems _].
    unfold ret in Hbody. injection Hbody as <- _.
    rewrite Hiter in Hitems. injection Hitems as <-.
    exists (names ++ [f]). split.
    + rewrite (take_S_r _ _ _ Hk). apply Forall2_app; [exact Hnames|].
      constructor; [|constructor]. exists g, i. auto.
    + rewrite appendTrialJobs_replicate, fmap_app, concat_app, <- app_assoc.
      simpl. rewrite app_nil_r. reflexivity.
Qed.

Lemma replicate_per_item {A} (P : terrain_item -> A -> Prop)
    (items : list terrain_item) a :
  (forall item, P item a) -> Forall2 P items (replicate (length items) a).
Proof.
  intros HP. induction items as [|item items IH]; simpl; constructor;
    [apply HP | exact IH].
Qed.

(** C5: a call of the loop over the members that returns has appended to
    the job list, member after member, one job for every item the
    iteration over the configured [terrains] value yields; each of these
    jobs names the file of its member and carries the flat descriptor
    [[0, 0, 0, 0]] as its terrain, whatever the item iterated. So every
    job of every batch of a run carries it. *)
Theorem jobs_carry_flat_terrain :
  (forall self activeGeneration jobList w jobList' w' items,
      dispatchMembers self activeGeneration jobList w = Ok (jobList', w') ->
      py_iter (terrains (trialProperties self)) = Ok items ->
      exists built : list (list EvolutionJob),
        jobList' = jobList ++ concat built /\
        Forall2 (fun m jobs => exists g i,
                   components m !! "generationID" = Some g /\
                   components m !! "memberID" = Some i /\
                   Forall2 (fun (item : terrain_item) j =>
                              job_filename j =
                                fileName (pathInfo (config self)) +:+ "_" +:+ str_mvalue g
                                +:+ "_" +:+ str_mvalue i +:+ ".json" /\
                              job_terrain j = [[0; 0; 0; 0]])
                           items jobs)
                (members activeGeneration) built) /\
  (forall self w gens w',
      beginTrial self w = Ok (gens, w') ->
      exists batches,
        submitted w' = submitted w ++ batches /\
        Forall (fun b => Forall (fun j => job_terrain j = [[0; 0; 0; 0]]) b.1) batches).
Proof.
  split.
  - intros self activeGeneration jobList w jobList' w' items H Hiter.
    destruct (dispatchMembers_built _ _ _ _ _ _ _ H Hiter) as (names & Hnames & ->).
    exists (jobs_for self items <$> names). split; [reflexivity|].
    apply Forall2_fmap_r. eapply Forall2_impl; [exact Hnames|].
    intros m f (g & i & Hg & Hi & ->). exists g, i.
    split; [exact Hg|]. split; [exact Hi|].
    apply replicate_per_item. intros item. split; reflexivity.
  - intros self w gens w' H. unfold beginTrial, beginTrialMaster in H.
    bind_inv H seed w0 Hseed. apply importSeedGeneration_Ok in Hseed as [_ Hsub].
    apply generationLoop_batches in H as (batches & Hb & _ & _ & Hall).
    + exists batches. rewrite Hb, Hsub. split; [reflexivity | exact Hall].
    + intros p w1 g w2 Hg. apply generationGenerator_Ok in Hg. tauto.
    + constructor.
Qed.

Lemma generationLoop_tails self gen genNums items :
  (forall p w1 g w2, gen p w1 = Ok (g, w2) -> submitted w2 = submitted w1) ->
  py_iter (terrains (trialProperties self)) = Ok items ->
  forall previousGeneration jobList w gens w',
    generationLoop self gen genNums previousGeneration jobList w = Ok (gens, w') ->
    exists batches,
      submitted w' = submitted w ++ batches /\
      Forall2 (fun g b =>
                 b.2 = numProcesses self /\
                 exists earlier names,
                   Forall2 (named self) (members g) names /\
                   b.1 = earlier ++ concat (jobs_for self items <$> names))
              gens batches /\
      (forall g b, gens !! 0%nat = Some g -> batches !! 0%nat = Some b ->
         exists names,
           Forall2 (named self) (members g) names /\
           b.1 = jobList ++ concat (jobs_for self items <$> names)).
Proof.
  intros Hgen Hiter. induction genNums as [|genNum rest IH];
    intros previousGeneration jobList w gens w' H; simpl in H.
  - unfold ret in H. injection H as <- <-. exists []. rewrite app_nil_r.
    split; [reflexivity|]. split; [constructor|]. intros g b Hg. inversion Hg.
  - bind_inv H a w1 Ha. apply Hgen in Ha.
    bind_inv H jl w2 Hd. pose proof (dispatchMembers_Ok _ _ _ _ _ _ Hd) as [Hsub _].
    apply (fun H => dispatchMembers_built _ _ _ _ _ _ _ H Hiter) in Hd
      as (names & Hnames & ->).
    bind_inv H u w3 Hm. unfold modify in Hm. injection Hm as _ <-.
    bind_inv H later w4 Hl. unfold ret in H. injection H as <- <-.
    destruct (IH _ _ _ _ _ Hl) as (batches & Hb & Hall & _).
    exists ((jobList ++ concat (jobs_for self items <$> names), numProcesses self)
              :: batches).
    split; [rewrite Hb; simpl; rewrite Hsub, Ha, <- app_assoc; reflexivity|].
    split.
    + constructor; [|exact Hall]. split; [reflexivity|]. exists jobList, names. auto.
    + intros g b Hg Hb0. simpl in Hg, Hb0. injection Hg as <-. injection Hb0 as <-.
      exists names. auto.
Qed.

(** X13: the batches of a run of [beginTrial] that returns, with a
    [terrains] value that can be iterated: there is one per generation
    produced, each handed over with the configured number of processes;
    the batch of a generation ends with the jobs built from that
    generation's members, for each member in turn as many copies as
    [terrains] has items of the one job naming that member's file; what
    stands before them is what the job list held when the iteration
    began, and in the first batch nothing stands before them. *)
Theorem beginTrial_batch_tails self w gens w' items :
  beginTrial self w = Ok (gens, w') ->
  py_iter (terrains (trialProperties self)) = Ok items ->
  exists batches,
    submitted w' = submitted w ++ batches /\
    Forall2 (fun g b =>
               b.2 = numProcesses self /\
               exists earlier names,
                 Forall2 (named self) (members g) names /\
                 b.1 = earlier ++ concat (jobs_for self items <$> names))
            gens batches /\
    (forall g b, gens !! 0%nat = Some g -> batches !! 0%nat = Some b ->
       exists names,
         Forall2 (named self) (members g) names /\
         b.1 = concat (jobs_for self items <$> names)).
Proof.
  intros H Hiter. unfold beginTrial, beginTrialMaster in H.
  bind_inv H seed w0 Hseed. apply importSeedGeneration_Ok in Hseed as [_ Hsub].
  apply (generationLoop_tails _ _ _ items) in H as (batches & Hb & Hall & Hfirst).
  - exists batches. rewrite Hb, Hsub. split; [reflexivity|]. split; [exact Hall|].
    exact Hfirst.
  - intros p w1 g w2 Hg. apply generationGenerator_Ok in Hg. tauto.
  - exact Hiter.
Qed.

End BuiltJobs.

Lemma jobs_carry_flat_terrain_witness :
  exists jobList' w',
    @dispatchMembers Fixtures.sized
      (@_setup Fixtures.sized (Fixtures.cfg 1 2 (TList [Fixtures.hilly; Fixtures.flat])) 4)
      (addMember (addMember (Generation_new 0) (Member_new 0 0)) (Member_new 1 0))
      [] (Fixtures.world Fixtures.no_disk) = Ok (jobList', w') /\
    length jobList' = 4%nat /\
    Forall (fun j => job_terrain j = [[0; 0; 0; 0]]) jobList'.
Proof.
  destruct (@dispatchMembers Fixtures.sized
              (@_setup Fixtures.sized (Fixtures.cfg 1 2 (TList [Fixtures.hilly; Fixtures.flat])) 4)
              (addMember (addMember (Generation_new 0) (Member_new 0 0)) (Member_new 1 0))
              [] (Fixtures.world Fixtures.no_disk)) as [[jobList' w']|e] eqn:Hrun;
    [|vm_compute in Hrun; discriminate].
  exists jobList', w'. split; [reflexivity|].
  destruct (proj1 (@jobs_carry_flat_terrain Fixtures.sized) _ _ _ _ _ _
              [ItemTerrain Fixtures.hilly; ItemTerrain Fixtures.flat] Hrun eq_refl)
    as (built & -> & Hbuilt).
  simpl in Hbuilt.
  apply Forall2_cons_inv_l in Hbuilt as (jobs1 & rest & (g1 & i1 & _ & _ & H1) & Hrest & ->).
  apply Forall2_cons_inv_l in Hrest as (jobs2 & rest' & (g2 & i2 & _ & _ & H2) & Hrest & ->).
  apply Forall2_nil_inv_l in Hrest as ->.
  pose proof (Forall2_length _ _ _ H1) as L1. pose proof (Forall2_length _ _ _ H2) as L2.
  simpl in L1, L2. simpl. rewrite app_nil_r, length_app, <- L1, <- L2.
  split; [reflexivity|].
  apply Forall_app. split.
  - eapply Forall2_Forall_r; [exact H1|]. apply Forall_forall. intros item _ j Hj. apply Hj.
  - eapply Forall2_Forall_r; [exact H2|]. apply Forall_forall. intros item _ j Hj. apply Hj.
Defined.

Lemma beginTrial_batch_tails_witness :
  exists gens w' batches,
    @beginTrial Fixtures.sized
      (@_setup Fixtures.sized (Fixtures.cfg 3 2 (TString "flat")) 4)
      (Fixtures.world Fixtures.seed_disk) = Ok (gens, w') /\
    submitted w' = [] ++ batches /\
    length batches = length gens /\
    forall g b, gens !! 0%nat = Some g -> batches !! 0%nat = Some b ->
      length b.1 = (length (members g) * 4)%nat.
Proof.
  destruct (@beginTrial Fixtures.sized
              (@_setup Fixtures.sized (Fixtures.cfg 3 2 (TString "flat")) 4)
              (Fixtures.world Fixtures.seed_disk)) as [[gens w']|e] eqn:Hrun;
    [|vm_compute in Hrun; discriminate].
  destruct (@beginTrial_batch_tails Fixtures.sized _ _ _ _
              (ItemChar <$> list_ascii_of_string "flat") Hrun eq_refl)
    as (batches & Hb & Hall & Hfirst).
  exists gens, w', batches. split; [reflexivity|]. split; [exact Hb|].
  split; [symmetry; exact (Forall2_length _ _ _ Hall)|].
  intros g b Hg Hb0. destruct (Hfirst g b Hg Hb0) as (names & Hnames & ->).
  rewrite (Forall2_length _ _ _ Hnames). clear.
  induction names as [|f names IH]; [reflexivity|].
  rewrite fmap_cons. cbn [concat]. rewrite length_app, IH, length_replicate.
  reflexivity.
Defined.

(** ** The Trial Dispatcher and the Run Controller *)

Section Dispatcher.
Context `{E : Externals}.

(** X10: the jobs [dispatchMembers] appends are, member after member, as
    many copies as the configured [terrains] value is long of one and the
    same job: the file name [writeMemberToFile] returned for that member
    (fileName_generationID_memberID.json), the resource prefix, the
    configured trial path, executable and trial length, and the flat
    terrain. The jobs built for one member do not differ. *)
Theorem dispatchMembers_jobs self activeGeneration jobList w jobList' w' n :
  dispatchMembers self activeGeneration jobList w = Ok (jobList', w') ->
  raw_length (terrains (trialProperties self)) = Ok n ->
  exists names,
    Forall2 (fun m f => exists g i,
               components m !! "generationID" = Some g /\
               components m !! "memberID" = Some i /\
               f = fileName (pathInfo (config self)) +:+ "_" +:+ str_mvalue g
                   +:+ "_" +:+ str_mvalue i +:+ ".json")
            (members activeGeneration) names /\
    jobList' =
      jobList ++
      concat ((fun f => replicate n
                 {| job_filename := f;
                    job_resourcePrefix := RESOURCE_DIRECTORY_NAME;
                    job_path := trialPath (pathInfo (config self));
                    job_executable := executable (pathInfo (config self));
                    job_length := trialLength (trialProperties self);
                    job_terrain := [[0; 0; 0; 0]] |}) <$> names).
Proof.
  intros H Hn. unfold dispatchMembers, getMembers in H.
  apply (forFold_counting
           (fun k jl _ =>
              exists names,
                Forall2 (fun m f => exists g i,
                           components m !! "generationID" = Some g /\
                           components m !! "memberID" = Some i /\
                           f = fileName (pathInfo (config self)) +:+ "_" +:+ str_mvalue g
                               +:+ "_" +:+ str_mvalue i +:+ ".json")
                        (take k (members activeGeneration)) names /\
                jl =
                  jobList ++
                  concat ((fun f => replicate n
                             {| job_filename := f;
                                job_resourcePrefix := RESOURCE_DIRECTORY_NAME;
                                job_path := trialPath (pathInfo (config self));
                                job_executable := executable (pathInfo (config self));
                                job_length := trialLength (trialProperties self);
                                job_terrain := [[0; 0; 0; 0]] |}) <$> names))
           _ _ _ _ _ _) in H.
  - rewrite firstn_all in H. exact H.
  - exists []. simpl. rewrite app_nil_r. split; [constructor | reflexivity].
  - intros k jl member w1 jl' w1' Hk (names & Hnames & ->) Hbody.
    bind_inv Hbody f w2 Hf. apply writeMemberToFile_Ok in Hf as (g & i & Hg & Hi & Hf & _).
    bind_inv Hbody items w3 Hitems. apply lift_Ok in Hitems as [Hitems _].
    unfold ret in Hbody. injection Hbody as <- _.
    apply py_iter_length in Hitems. rewrite Hitems in Hn. injection Hn as <-.
    exists (names ++ [f]). split.
    + rewrite (take_S_r _ _ _ Hk). apply Forall2_app; [exact Hnames|].
      constructor; [|constructor]. eauto.
    + rewrite appendTrialJobs_replicate, fmap_app, concat_app, <- app_assoc.
      simpl. rewrite app_nil_r. reflexivity.
Qed.

(** X11: what stops the dispatcher. A generation without members gives
    the job list back unchanged and touches nothing, whatever [terrains]
    holds; a first member without generationID, or with it but without
    memberID, raises [KeyError] on that key; a first member that can be
    written, with a [terrains] value that is a scalar, raises
    [TypeError]. *)
Theorem dispatchMembers_stops self activeGeneration jobList w :
  (members activeGeneration = [] ->
     dispatchMembers self activeGeneration jobList w = Ok (jobList, w)) /\
  (forall m rest, members activeGeneration = m :: rest ->
     components m !! "generationID" = None ->
     dispatchMembers self activeGeneration jobList w = Raise (KeyError "generationID")) /\
  (forall m rest, members activeGeneration = m :: rest ->
     is_Some (components m !! "generationID") ->
     components m !! "memberID" = None ->
     dispatchMembers self activeGeneration jobList w = Raise (KeyError "memberID")) /\
  (forall m rest z, members activeGeneration = m :: rest ->
     is_Some (components m !! "generationID") ->
     is_Some (components m !! "memberID") ->
     terrains (trialProperties self) = TScalar z ->
     dispatchMembers self activeGeneration jobList w = Raise TypeError).
Proof.
  unfold dispatchMembers, getMembers. split; [|split; [|split]].
  - intros ->. reflexivity.
  - intros m rest -> Hg. simpl.
    unfold bind, writeMemberToFile, bind, lift, getitem. rewrite Hg. reflexivity.
  - intros m rest -> [g Hg] Hi. simpl.
    unfold bind, writeMemberToFile, bind, lift, getitem. rewrite Hg, Hi. reflexivity.
  - intros m rest z -> [g Hg] [i Hi] Hz. simpl.
    unfold bind, writeMemberToFile, bind, lift, getitem. rewrite Hg, Hi, Hz. reflexivity.
Qed.

End Dispatcher.

Lemma dispatchMembers_jobs_witness :
  exists jobList' w',
    @dispatchMembers Fixtures.sized
      (@_setup Fixtures.sized (Fixtures.cfg 1 2 (TList [Fixtures.hilly; Fixtures.flat])) 4)
      (addMember (Generation_new 0) (Member_new 5 0))
      [] (Fixtures.world Fixtures.no_disk) = Ok (jobList', w') /\
    job_filename <$> jobList' = ["m_0_5.json"; "m_0_5.json"].
Proof.
  destruct (@dispatchMembers Fixtures.sized
              (@_setup Fixtures.sized (Fixtures.cfg 1 2 (TList [Fixtures.hilly; Fixtures.flat])) 4)
              (addMember (Generation_new 0) (Member_new 5 0))
              [] (Fixtures.world Fixtures.no_disk)) as [[jobList' w']|e] eqn:Hrun;
    [|vm_compute in Hrun; discriminate].
  exists jobList', w'. split; [reflexivity|].
  destruct (@dispatchMembers_jobs Fixtures.sized _ _ _ _ _ _ 2%nat Hrun eq_refl)
    as (names & Hnames & ->).
  simpl in Hnames. apply Forall2_cons_inv_l in Hnames as (f & rest & Hf & Hrest & ->).
  apply Forall2_nil_inv_l in Hrest as ->.
  destruct Hf as (g & i & Hg & Hi & ->).
  vm_compute in Hg. vm_compute in Hi. injection Hg as <-. injection Hi as <-.
  reflexivity.
Defined.

Lemma dispatchMembers_stops_witness :
  @dispatchMembers Fixtures.sized
    (@_setup Fixtures.sized (Fixtures.cfg 1 2 (TScalar 3)) 4)
    (Generation_new 0) [] (Fixtures.world Fixtures.no_disk)
  = Ok ([], Fixtures.world Fixtures.no_disk) /\
  @dispatchMembers Fixtures.sized
    (@_setup Fixtures.sized (Fixtures.cfg 1 2 (TScalar 3)) 4)
    (addMember (Generation_new 0) (Member_of ∅)) [] (Fixtures.world Fixtures.no_disk)
  = Raise (KeyError "generationID") /\
  @dispatchMembers Fixtures.sized
    (@_setup Fixtures.sized (Fixtures.cfg 1 2 (TScalar 3)) 4)
    (addMember (Generation_new 0) (Member_new 5 0)) [] (Fixtures.world Fixtures.no_disk)
  = Raise TypeError.
Proof.
  split; [|split].
  - apply (proj1 (@dispatchMembers_stops Fixtures.sized _ _ _ _)). reflexivity.
  - apply (proj1 (proj2 (@dispatchMembers_stops Fixtures.sized _ _ _ _)) (Member_of ∅) []);
      reflexivity.
  - apply (proj2 (proj2 (proj2 (@dispatchMembers_stops Fixtures.sized _ _ _ _)))
             (Member_new 5 0) [] 3); try reflexivity; eexists; reflexivity.
Defined.

Section RunStore.
Context `{E : Externals}.

(** Files are kept from one world to the next. *)
Let kept (w w' : World) : Prop :=
  forall p, is_Some (files w !! p) -> is_Some (files w' !! p).

(** The member file a job names is in the store. *)
Let has_file (self : JobMaster) (w : World) (j : EvolutionJob) : Prop :=
  is_Some (files w !! (trialDirectory self +:+ "/" +:+ job_filename j)).

(** The member has its two identifiers and its file is in the store. *)
Let persisted (self : JobMaster) (w : World) (m : Member) : Prop :=
  exists g i,
    components m !! "generationID" = Some g /\
    components m !! "memberID" = Some i /\
    is_Some (files w !! (trialDirectory self +:+ "/" +:+
                         fileName (pathInfo (config self)) +:+ "_" +:+ str_mvalue g
                         +:+ "_" +:+ str_mvalue i +:+ ".json")).

Lemma kept_refl w : kept w w.
Proof. intros p Hp. exact Hp. Qed.

Lemma kept_trans w1 w2 w3 : kept w1 w2 -> kept w2 w3 -> kept w1 w3.
Proof. intros H12 H23 p Hp. apply H23, H12, Hp. Qed.

Lemma kept_insert w path content : kept w (set_files (insert path content) w).
Proof.
  intros p Hp. simpl. destruct (decide (path = p)) as [->|Hne].
  - rewrite lookup_insert_eq. eauto.
  - rewrite lookup_insert_ne by exact Hne. exact Hp.
Qed.

Lemma has_file_kept self w w' j : kept w w' -> has_file self w j -> has_file self w' j.
Proof. intros Hk Hj. apply Hk, Hj. Qed.

Lemma persisted_kept self w w' m : kept w w' -> persisted self w m -> persisted self w' m.
Proof. intros Hk (g & i & Hg & Hi & Hf). exists g, i. split; [|split]; auto. Qed.

Lemma postProcess_kept self componentName genID component w component' w' :
  postProcess self componentName genID component w = Ok (component', w') -> kept w w'.
Proof.
  intros H. pose proof (postProcess_Ok _ _ _ _ _ _ _ H) as (spec & i & Hspec & Hi & _).
  destruct (postProcess_cases self componentName genID component w spec Hspec) as [_ Hsome].
  destruct (Hsome i Hi) as [Hrows Hnet].
  destruct (params component) as [rows|net].
  - rewrite (Hrows rows eq_refl) in H. injection H as _ <-. apply kept_refl.
  - rewrite (Hnet net eq_refl) in H. injection H as _ <-. apply kept_insert.
Qed.

Lemma generateComponentPopulation_kept self componentName components previousGeneration
    genID w population w' :
  generateComponentPopulation self componentName components previousGeneration genID w
    = Ok (population, w') ->
  kept w w'.
Proof.
  intros H. unfold generateComponentPopulation in H.
  bind_inv H spec w0 Hs. apply lift_Ok in Hs as [_ ->]. bind_inv H raw w1 Hd.
  apply (forMap_invariant (kept w)) in H; [exact H | |].
  - destruct (dispatchLearning _ _ _ _ _ _) as [[raw0 pos]|e]; [|discriminate].
    injection Hd as _ <-. intros p Hp. exact Hp.
  - intros c wa c' wb _ Hk Hc. apply postProcess_kept in Hc.
    eapply kept_trans; eauto.
Qed.

Lemma generationGenerator_kept self previousGeneration w g w' :
  generationGenerator self previousGeneration w = Ok (g, w') -> kept w w'.
Proof.
  intros H. unfold generationGenerator in H. bind_inv H populations w1 Hp.
  apply createNewGeneration_draws in H. subst w'.
  unfold generateComponentPopulations in Hp.
  apply (forFold_invariant (fun _ w2 => kept w w2)) in Hp; [exact Hp | apply kept_refl |].
  intros b kv wa b' wb _ Hk Hbody. bind_inv Hbody population wc Hc.
  apply generateComponentPopulation_kept in Hc. unfold ret in Hbody.
  injection Hbody as _ <-. eapply kept_trans; eauto.
Qed.

Lemma dispatchMembers_store self activeGeneration jobList w jobList' w' :
  dispatchMembers self activeGeneration jobList w = Ok (jobList', w') ->
  kept w w' /\
  (Forall (has_file self w) jobList -> Forall (has_file self w') jobList') /\
  Forall (persisted self w') (members activeGeneration).
Proof.
  intros H. unfold dispatchMembers, getMembers in H.
  apply (forFold_counting
           (fun k jl w1 =>
              kept w w1 /\
              (Forall (has_file self w) jobList -> Forall (has_file self w1) jl) /\
              Forall (persisted self w1) (take k (members activeGeneration)))
           _ _ _ _ _ _) in H.
  - rewrite firstn_all in H. exact H.
  - split; [apply kept_refl|]. split; [auto | constructor].
  - intros k jl member w1 jl' w1' Hk (Hkept & Hjobs & Hdone) Hbody.
    bind_inv Hbody f w2 Hf.
    apply writeMemberToFile_Ok in Hf as (g & i & Hg & Hi & Hf & ->).
    bind_inv Hbody items w3 Hitems. apply lift_Ok in Hitems as [_ ->].
    unfold ret in Hbody. injection Hbody as <- <-.
    assert (Hstep : kept w1 (set_files (insert (trialDirectory self +:+ "/" +:+ f)
                                          (MemberJson (components member))) w1))
      by apply kept_insert.
    split; [eapply kept_trans; eauto|]. split.
    + intros Hall. rewrite appendTrialJobs_replicate. apply Forall_app. split.
      * eapply Forall_impl; [exact (Hjobs Hall)|].
        intros j Hj. eapply has_file_kept; eauto.
      * apply Forall_replicate. unfold has_file. simpl.
        rewrite lookup_insert_eq. eauto.
    + rewrite (take_S_r _ _ _ Hk). apply Forall_app. split.
      * eapply Forall_impl; [exact Hdone|].
        intros m Hm. eapply persisted_kept; eauto.
      * constructor; [|constructor]. exists g, i. split; [exact Hg|]. split; [exact Hi|].
        simpl. rewrite <- Hf, lookup_insert_eq. eauto.
Qed.

Lemma generationLoop_store self gen genNums :
  (forall p w1 g w2, gen p w1 = Ok (g, w2) -> submitted w2 = submitted w1 /\ kept w1 w2) ->
  forall previousGeneration jobList w gens w',
    Forall (has_file self w) jobList ->
    generationLoop self gen genNums previousGeneration jobList w = Ok (gens, w') ->
    kept w w' /\
    Forall (fun g => Forall (persisted self w') (members g)) gens /\
    exists batches,
      submitted w' = submitted w ++ batches /\
      Forall (fun b => Forall (has_file self w') b.1) batches.
Proof.
  intros Hgen. induction genNums as [|genNum rest IH];
    intros previousGeneration jobList w gens w' Hjobs H; simpl in H.
  - unfold ret in H. injection H as <- <-. split; [apply kept_refl|].
    split; [constructor|]. exists []. rewrite app_nil_r. split; [reflexivity | constructor].
  - bind_inv H a w1 Ha. apply Hgen in Ha as [Hsub1 Hk1].
    bind_inv H jl w2 Hd. pose proof (dispatchMembers_Ok _ _ _ _ _ _ Hd) as [Hsub2 _].
    apply dispatchMembers_store in Hd as (Hk2 & Hjl & Hpers).
    bind_inv H u w3 Hm. unfold modify in Hm. injection Hm as _ <-.
    bind_inv H later w4 Hl. unfold ret in H. injection H as <- <-.
    assert (Hjl2 : Forall (has_file self w2) jl).
    { apply Hjl. eapply Forall_impl; [exact Hjobs|].
      intros j Hj. eapply has_file_kept; eauto. }
    destruct (IH _ _ (set_submitted _ w2) _ _ Hjl2 Hl)
      as (Hk3 & Hlater & batches & Hb & Hall).
    split; [eapply kept_trans; [exact Hk1|]; eapply kept_trans; [exact Hk2 | exact Hk3]|].
    split.
    + constructor; [|exact Hlater].
      eapply Forall_impl; [exact Hpers|]. intros m Hm. eapply persisted_kept; eauto.
    + exists ((jl, numProcesses self) :: batches). split.
      * rewrite Hb. simpl. rewrite Hsub2, Hsub1, <- app_assoc. reflexivity.
      * constructor; [|exact Hall]. simpl.
        eapply Forall_impl; [exact Hjl2|]. intros j Hj. eapply has_file_kept; eauto.
Qed.

Lemma importSeedGeneration_files self w seed w' :
  importSeedGeneration self w = Ok (seed, w') -> files w' = files w.
Proof.
  unfold importSeedGeneration.
  destruct (isdir (disk w) (seedDirectory (pathInfo (config self)))).
  - intros H.
    apply (forFold_invariant (fun _ w1 => files w1 = files w)) in H;
      [exact H | reflexivity |].
    intros b file w1 b' w1' _ Hf Hbody. bind_inv Hbody d w2 Hd.
    apply lift_Ok in Hd as [_ ->]. unfold ret in Hbody. injection Hbody as _ <-. exact Hf.
  - intros H. injection H as _ <-. reflexivity.
Qed.

(** X12: in a run of [beginTrial] that returns, no file of the store is
    lost; every member of every generation produced has its two
    identifiers and its file fileName_generationID_memberID.json under
    the trial directory; and every job of every batch handed to the
    scheduler names a member file that is in the store. *)
Theorem beginTrial_persists self w gens w' :
  beginTrial self w = Ok (gens, w') ->
  (forall p, is_Some (files w !! p) -> is_Some (files w' !! p)) /\
  Forall (fun g =>
            Forall (fun m => exists gid mid,
                      components m !! "generationID" = Some gid /\
                      components m !! "memberID" = Some mid /\
                      is_Some (files w' !! (trialDirectory self +:+ "/" +:+
                                 fileName (pathInfo (config self)) +:+ "_"
                                 +:+ str_mvalue gid +:+ "_" +:+ str_mvalue mid +:+ ".json")))
                   (members g))
         gens /\
  exists batches,
    submitted w' = submitted w ++ batches /\
    Forall (fun b : list EvolutionJob * Z =>
              Forall (fun j => is_Some (files w' !! (trialDirectory self +:+ "/"
                                                     +:+ job_filename j))) b.1)
           batches.
Proof.
  intros H. unfold beginTrial, beginTrialMaster in H. bind_inv H seed w0 Hseed.
  pose proof (importSeedGeneration_files _ _ _ _ Hseed) as Hfiles.
  apply importSeedGeneration_Ok in Hseed as [_ Hsub].
  apply generationLoop_store in H as (Hk & Hpers & batches & Hb & Hall).
  - split; [intros p Hp; apply Hk; rewrite Hfiles; exact Hp|].
    split; [exact Hpers|]. exists batches. rewrite Hb, Hsub. split; [reflexivity | exact Hall].
  - intros p w1 g w2 Hg. split.
    + apply generationGenerator_Ok in Hg. tauto.
    + apply generationGenerator_kept in Hg. exact Hg.
  - constructor.
Qed.

End RunStore.

Lemma beginTrial_persists_witness :
  exists gens w',
    @beginTrial Fixtures.sized
      (@_setup Fixtures.sized (Fixtures.cfg 2 1 (TList [Fixtures.flat])) 4)
      (Fixtures.world Fixtures.seed_disk) = Ok (gens, w') /\
    length (submitted w') = 2%nat /\
    Forall (fun b : list EvolutionJob * Z =>
              Forall (fun j => is_Some (files w' !! ("/../../../resources/src/trial/" +:+ "/"
                                                     +:+ job_filename j))) b.1)
           (submitted w').
Proof.
  destruct (@beginTrial Fixtures.sized
              (@_setup Fixtures.sized (Fixtures.cfg 2 1 (TList [Fixtures.flat])) 4)
              (Fixtures.world Fixtures.seed_disk)) as [[gens w']|e] eqn:Hrun;
    [|vm_compute in Hrun; discriminate].
  exists gens, w'. split; [reflexivity|].
  split; [vm_compute in Hrun; injection Hrun as _ <-; reflexivity|].
  destruct (@beginTrial_persists Fixtures.sized _ _ _ _ Hrun)
    as (_ & _ & batches & Hb & Hall).
  rewrite Hb. exact Hall.
Defined.

Section RunShape.
Context `{E : Externals}.

Lemma generationLoop_chain self genNums :
  forall previousGeneration jobList w gens w',
    generationLoop self (generationGenerator self) genNums previousGeneration jobList w
      = Ok (gens, w') ->
    length gens = length genNums /\
    forall k g g', gens !! k = Some g -> gens !! S k = Some g' ->
                   ID g' = getNewGenerationID (Some g).
Proof.
  induction genNums as [|genNum rest IH];
    intros previousGeneration jobList w gens w' H; simpl in H.
  - unfold ret in H. injection H as <- <-. split; [reflexivity|].
    intros k g g' Hk. inversion Hk.
  - bind_inv H a w1 Ha. bind_inv H jl w2 Hd. bind_inv H u w3 Hm.
    bind_inv H later w4 Hl. unfold ret in H. injection H as <- <-.
    pose proof (generationLoop_IDs _ _ _ _ _ _ _ Hl) as (_ & Hfirst & _).
    destruct (IH _ _ _ _ _ Hl) as [Hlen Hchain]. split; [simpl; congruence|].
    intros k g g' Hk Hk'. destruct k as [|k]; simpl in Hk, Hk'.
    + injection Hk as <-. apply Hfirst. exact Hk'.
    + eapply Hchain; eauto.
Qed.

(** X14: a run of [beginTrial] that returns has produced as many
    generations as generationCount says (none when it is zero or below),
    each of generationSize members; the first takes its identifier from
    the imported seed generation and every later one from the generation
    produced just before it, through [getNewGenerationID]. *)
Theorem beginTrial_lineage self w gens w' :
  beginTrial self w = Ok (gens, w') ->
  exists seed w0,
    importSeedGeneration self w = Ok (seed, w0) /\
    length gens = Z.to_nat (generationCount (trialProperties self)) /\
    (generationCount (trialProperties self) <= 0 -> gens = []) /\
    Forall (fun g => length (members g)
                     = Z.to_nat (generationSize (trialProps (config self)))) gens /\
    (forall g, gens !! 0%nat = Some g -> ID g = getNewGenerationID (Some seed)) /\
    (forall k g g', gens !! k = Some g -> gens !! S k = Some g' ->
                    ID g' = getNewGenerationID (Some g)).
Proof.
  intros H. unfold beginTrial, beginTrialMaster in H. bind_inv H seed w0 Hseed.
  exists seed, w0. split; [exact Hseed|].
  pose proof (generationLoop_IDs _ _ _ _ _ _ _ H) as (Hsizes & Hfirst & _).
  apply generationLoop_chain in H as [Hlen Hchain]. rewrite length_range in Hlen.
  split; [exact Hlen|]. split.
  - intros Hle. apply length_zero_iff_nil. rewrite Hlen. lia.
  - split; [exact Hsizes|]. split; [exact Hfirst | exact Hchain].
Qed.

End RunShape.

Lemma beginTrial_lineage_witness :
  exists gens w',
    @beginTrial Fixtures.sized
      (@_setup Fixtures.sized (Fixtures.cfg 3 2 (TString "flat")) 4)
      (Fixtures.world Fixtures.no_disk) = Ok (gens, w') /\
    length gens = 3%nat /\
    Forall (fun g => length (members g) = 2%nat) gens.
Proof.
  destruct (@beginTrial Fixtures.sized
              (@_setup Fixtures.sized (Fixtures.cfg 3 2 (TString "flat")) 4)
              (Fixtures.world Fixtures.no_disk)) as [[gens w']|e] eqn:Hrun;
    [|vm_compute in Hrun; discriminate].
  destruct (@beginTrial_lineage Fixtures.sized _ _ _ _ Hrun)
    as (seed & w0 & _ & Hlen & _ & Hsizes & _).
  exists gens, w'. split; [reflexivity|]. split; [exact Hlen | exact Hsizes].
Defined.
